(** * The vote gate and tally of [src/App.jsx]

    A shallow embedding of the [App] component: its React state, the
    [localStorage] key [_voteId], the Firestore collection [votes] and the
    asynchronous functions of the component, cut at their [await] points.

    Conventions.
    - JavaScript numbers that occur here are vote counts; they are modelled
      by [Z], which is exact for counts below 2^53, together with [NaN].
    - The plain object [stats] is a finite map from property keys to numbers
      ([gmap string jsnum]); the properties it inherits from
      [Object.prototype] are modelled by [proto_names].
    - What the environment answers (the UUID of [crypto.randomUUID], the
      clock, the outcome of a network call) is an argument of the function
      or event that consumes it.
    - The collection is the list of its documents in the order in which a
      snapshot enumerates them, which is the order of their document IDs.
      [addDoc] draws a random ID, so the place of a new document in that
      order is the environment's choice ([slot]).
    - A [getDocs] query is answered from the collection as it is when the
      awaited promise settles; [addDoc] adds its document when it resolves
      and adds nothing when it rejects.
    - Of a stored [option] the component observes its truth value and its
      conversion to a property key; a value is represented by what these two
      depend on.
    - [logEvent], [toast] and [console.error] only emit; they do not throw.
    - An event is a call of one of the component's functions.  The JSX wires
      [handleVoteClick] to the three buttons and [onCaptchaChange] to the
      challenge; [submitVote] is defined by the component and is modelled as
      callable at any time. *)

From stdpp Require Import base option list strings gmap fin_maps.
From Stdlib Require Import ZArith Lia Permutation.

Open Scope string_scope.
Open Scope Z_scope.
Open Scope list_scope.

(** ** JavaScript values read by the component *)

(** The value of the [option] field of a stored document.  Firestore does not
    enforce a schema, so the field may be absent ([JUndefined]) or hold any
    value the store can hold.
    - A number is given by the text [String(n)] yields ("0" also for -0).
    - An array is given by what [Array.prototype.join] yields for it, which
      is what its conversion to a string is; [None] when the conversion of
      one of its elements throws.
    - A map is given by the names of its fields.
    - The other objects the SDK returns (Timestamp, GeoPoint, Bytes,
      DocumentReference) are given by what their [toString()] yields. *)
Inductive jsval :=
| JUndefined
| JNull
| JBool (b : bool)
| JNum (text : string)
| JStr (s : string)
| JArr (joined : option string)
| JMap (fields : list string)
| JObj (text : string).

#[global] Instance jsval_eq_dec : EqDecision jsval.
Proof. solve_decision. Defined.

(** [if (s)] on a string: the empty string is falsy. *)
Definition str_truthy (s : string) : bool := negb (String.eqb s "").

(** ToBoolean: [undefined], [null], [false], 0, -0, NaN and the empty string
    are falsy; every object is truthy. *)
Definition truthy (v : jsval) : bool :=
  match v with
  | JUndefined | JNull => false
  | JBool b => b
  | JNum text => negb (String.eqb text "0" || String.eqb text "NaN")
  | JStr s => str_truthy s
  | JArr _ | JMap _ | JObj _ => true
  end.

(** ToPropertyKey: the key used by [stats[option]]; [None] when the
    conversion throws a TypeError.  A map is converted by its [toString]
    method: the one inherited from [Object.prototype] yields
    "[object Object]"; a field named [toString] shadows it, and as a stored
    field is never a function (and the inherited [valueOf] returns the map
    itself) the conversion then throws. *)
Definition to_key (v : jsval) : option string :=
  match v with
  | JUndefined => Some "undefined"
  | JNull => Some "null"
  | JBool true => Some "true"
  | JBool false => Some "false"
  | JNum text => Some text
  | JStr s => Some s
  | JArr joined => joined
  | JMap fields =>
      if bool_decide ("toString" ∈ fields) then None
      else Some "[object Object]"
  | JObj text => Some text
  end.

(** A number: an integer count or NaN. *)
Inductive jsnum :=
| Num (z : Z)
| NaN.

#[global] Instance jsnum_eq_dec : EqDecision jsnum.
Proof. solve_decision. Defined.

(** [a + b] on numbers. *)
Definition jsadd (a b : jsnum) : jsnum :=
  match a, b with
  | Num x, Num y => Num (x + y)
  | _, _ => NaN
  end.

(** ** Documents of the collection [votes] *)

(** The object passed to [addDoc] in [submitVote]:
    [{ option, IP: userIP, voteID: voteId, timestamp }]. *)
Record Vote := mkVote {
  v_option : jsval;
  v_IP : string;
  v_voteID : string;
  v_timestamp : string
}.

#[global] Instance Vote_eq_dec : EqDecision Vote.
Proof. solve_decision. Defined.

(** ** The tally: [fetchVoteStats] and [totalVotes] *)

Module Tally.

(** Property names every plain object inherits from [Object.prototype]. *)
Definition proto_names : list string :=
  [ "constructor"; "hasOwnProperty"; "isPrototypeOf"; "propertyIsEnumerable";
    "toLocaleString"; "toString"; "valueOf"; "__proto__";
    "__defineGetter__"; "__defineSetter__"; "__lookupGetter__";
    "__lookupSetter__" ].

Definition is_proto_name (k : string) : bool :=
  bool_decide (k ∈ proto_names).

(** The result of the property read [stats[k]]. *)
Inductive propval :=
| POwn (n : jsnum)   (* an own property, always a number here *)
| PInherited         (* a function or object found on [Object.prototype] *)
| PUndefined.        (* no such property *)

(** [stats[k]] *)
Definition get (stats : gmap string jsnum) (k : string) : propval :=
  match stats !! k with
  | Some n => POwn n
  | None => if is_proto_name k then PInherited else PUndefined
  end.

(** [Number(p || 0)]: 0 and NaN are falsy and replaced by 0, [undefined]
    too; an inherited function or object is truthy and converts to NaN. *)
Definition number_or0 (p : propval) : jsnum :=
  match p with
  | POwn (Num z) => if Z.eqb z 0 then Num 0 else Num z
  | POwn NaN => Num 0
  | PUndefined => Num 0
  | PInherited => NaN
  end.

(** [stats[k] = n].  Assigning a number to [__proto__] runs the inherited
    setter, which ignores values that are not objects; any other key gets an
    own property. *)
Definition put (stats : gmap string jsnum) (k : string) (n : jsnum)
  : gmap string jsnum :=
  if String.eqb k "__proto__" then stats else <[k := n]> stats.

(** [const stats = { A: 0, B: 0, C: 0 }] *)
Definition stats0 : gmap string jsnum :=
  <["A" := Num 0]> (<["B" := Num 0]> (<["C" := Num 0]> ∅)).

(** The assignment [stats[k] = Number(stats[k] || 0) + 1]. *)
Definition assign (stats : gmap string jsnum) (k : string)
  : gmap string jsnum :=
  put stats k (jsadd (number_or0 (get stats k)) (Num 1)).

(** The body of the [forEach] callback:
    [if (option) stats[option] = Number(stats[option] || 0) + 1];
    [None] when the key conversion throws. *)
Definition tally_step (stats : gmap string jsnum) (v : Vote)
  : option (gmap string jsnum) :=
  if truthy (v_option v)
  then match to_key (v_option v) with
       | Some k => Some (assign stats k)
       | None => None
       end
  else Some stats.

(** [querySnapshot.forEach(callback)]: the documents are visited in order;
    an exception thrown by the callback ends the loop and is thrown on. *)
Fixpoint forEach (votes : list Vote) (stats : gmap string jsnum)
  : option (gmap string jsnum) :=
  match votes with
  | [] => Some stats
  | v :: rest =>
      match tally_step stats v with
      | Some stats' => forEach rest stats'
      | None => None
      end
  end.

(** The object handed to [setVoteStats] by [fetchVoteStats] for the documents
    [votes] of the snapshot; [None] when the loop throws and the [catch]
    block runs instead. *)
Definition computeTally (votes : list Vote) : option (gmap string jsnum) :=
  forEach votes stats0.

(** [Object.values(voteStats).reduce((a, b) => Number(a) + Number(b), 0)] *)
Definition totalVotes (voteStats : gmap string jsnum) : jsnum :=
  map_fold (fun _ b a => jsadd a b) (Num 0) voteStats.

(** *** Vocabulary for the properties of the tally *)

(** The fixed options of the poll: the keys of the initial [stats]. *)
Definition recognized (k : string) : bool :=
  bool_decide (k ∈ ["A"; "B"; "C"]).

(** Entries the callback skips: those whose [option] is falsy. *)
Definition skipped (v : Vote) : bool := negb (truthy (v_option v)).

(** Entries whose [option] is not one of the fixed options. *)
Definition unrecognized (v : Vote) : bool :=
  negb (truthy (v_option v)
        && match to_key (v_option v) with
           | Some k => recognized k
           | None => false
           end).

(** Entries at which the callback throws. *)
Definition throws (v : Vote) : bool :=
  truthy (v_option v) && bool_decide (to_key (v_option v) = None).

(** The entries counted under key [k], and their number. *)
Definition hits (k : string) (v : Vote) : bool :=
  truthy (v_option v) && bool_decide (to_key (v_option v) = Some k).

Definition count_for (k : string) (votes : list Vote) : Z :=
  Z.of_nat (length (List.filter (hits k) votes)).

(** Entries whose key does not collide with a name on [Object.prototype]. *)
Definition own_keyed (votes : list Vote) : Prop :=
  ∀ v k, In v votes → to_key (v_option v) = Some k → is_proto_name k = false.

(** Entries all of whose options convert to a property key. *)
Definition convertible (votes : list Vote) : Prop :=
  ∀ v, In v votes → throws v = false.

(** What the callback leaves of [stats]; [stats] itself where it throws. *)
Definition counted (stats : gmap string jsnum) (v : Vote)
  : gmap string jsnum :=
  match tally_step stats v with
  | Some stats' => stats'
  | None => stats
  end.

(** What a sequence of [c] increments makes of the property [o]. *)
Definition bump (o : option jsnum) (c : Z) : option jsnum :=
  match o with
  | Some (Num z) => Some (Num (z + c))
  | Some NaN => Some NaN
  | None => if Z.eqb c 0 then None else Some (Num c)
  end.

(** What one counted entry makes of the property [k] it names. *)
Definition next (k : string) (o : option jsnum) : option jsnum :=
  if String.eqb k "__proto__" then o
  else Some (jsadd (number_or0
                      match o with
                      | Some n => POwn n
                      | None => if is_proto_name k then PInherited
                                else PUndefined
                      end) (Num 1)).

End Tally.

(** ** The component: state, storage, ledger and suspended calls *)

Inductive toast :=
| AlreadyVoted          (* 'Ați votat deja' *)
| VerificationNeeded    (* 'Verificare necesară' *)
| VoteRecorded          (* 'Vot înregistrat cu succes!' *)
| SubmitError.          (* 'Eroare' *)

Inductive analytics_event :=
| page_view
| vote_submitted (vote_option : jsval)
| vote_error (error_message : string).

(** What the component emits: toasts, analytics events, [console.error]. *)
Inductive output :=
| Toast (t : toast)
| LogEvent (e : analytics_event)
| ConsoleError (what : string).

(** A call suspended at an [await], with the variables its continuation
    closes over. *)
Inductive task :=
| AwaitCheckVoteStatus (voteId ip : string)  (* the [Promise.all] of line 72 *)
| AwaitFetchIP                               (* [fetch] and [response.json()] *)
| AwaitCheckVoteByIP (ip : string)           (* [getDocs(ipQuery)] *)
| AwaitFetchVoteStats (from_submit : bool)   (* [getDocs(votesRef)] *)
| AwaitAddDoc (doc : Vote).                  (* [addDoc] in [submitVote] *)

#[global] Instance task_eq_dec : EqDecision task.
Proof. solve_decision. Defined.

(** How an awaited promise settles.  [payload] is the [ip] field of the
    address lookup's JSON (the empty string when it is missing); the queries
    read their result from the ledger.  [slot] is the place at which the
    random ID of the document [addDoc] has written sorts among the stored
    ones; places beyond the last mean the end. *)
Inductive outcome :=
| Resolved (payload : string) (slot : nat)
| Rejected (message : string).

Record world := mkWorld {
  (* React state *)
  hasVoted : bool;
  voteStats : gmap string jsnum;
  loading : bool;
  userIP : string;
  captchaVerified : bool;
  showCaptcha : bool;
  (* [localStorage.getItem('_voteId')]: [None] is [null] *)
  localStorage : option string;
  (* the documents of [collection(db, 'votes')], in the order of their IDs *)
  ledger : list Vote;
  (* suspended calls, oldest first *)
  pending : list task;
  (* everything emitted so far, oldest first *)
  out : list output
}.

Definition setHasVoted (b : bool) (w : world) : world :=
  mkWorld b (voteStats w) (loading w) (userIP w) (captchaVerified w)
    (showCaptcha w) (localStorage w) (ledger w) (pending w) (out w).
Definition setVoteStats (s : gmap string jsnum) (w : world) : world :=
  mkWorld (hasVoted w) s (loading w) (userIP w) (captchaVerified w)
    (showCaptcha w) (localStorage w) (ledger w) (pending w) (out w).
Definition setLoading (b : bool) (w : world) : world :=
  mkWorld (hasVoted w) (voteStats w) b (userIP w) (captchaVerified w)
    (showCaptcha w) (localStorage w) (ledger w) (pending w) (out w).
Definition setUserIP (ip : string) (w : world) : world :=
  mkWorld (hasVoted w) (voteStats w) (loading w) ip (captchaVerified w)
    (showCaptcha w) (localStorage w) (ledger w) (pending w) (out w).
Definition setCaptchaVerified (b : bool) (w : world) : world :=
  mkWorld (hasVoted w) (voteStats w) (loading w) (userIP w) b
    (showCaptcha w) (localStorage w) (ledger w) (pending w) (out w).
Definition setShowCaptcha (b : bool) (w : world) : world :=
  mkWorld (hasVoted w) (voteStats w) (loading w) (userIP w) (captchaVerified w)
    b (localStorage w) (ledger w) (pending w) (out w).
(** [localStorage.setItem('_voteId', s)] *)
Definition setItem (s : string) (w : world) : world :=
  mkWorld (hasVoted w) (voteStats w) (loading w) (userIP w) (captchaVerified w)
    (showCaptcha w) (Some s) (ledger w) (pending w) (out w).
(** The store accepts a document, whose ID sorts at place [slot]. *)
Definition store (slot : nat) (v : Vote) (w : world) : world :=
  mkWorld (hasVoted w) (voteStats w) (loading w) (userIP w) (captchaVerified w)
    (showCaptcha w) (localStorage w)
    (take slot (ledger w) ++ v :: drop slot (ledger w)) (pending w) (out w).
Definition set_pending (ts : list task) (w : world) : world :=
  mkWorld (hasVoted w) (voteStats w) (loading w) (userIP w) (captchaVerified w)
    (showCaptcha w) (localStorage w) (ledger w) ts (out w).
(** Suspend at an [await]. *)
Definition suspend (t : task) (w : world) : world :=
  set_pending (pending w ++ [t]) w.
Definition emit (o : output) (w : world) : world :=
  mkWorld (hasVoted w) (voteStats w) (loading w) (userIP w) (captchaVerified w)
    (showCaptcha w) (localStorage w) (ledger w) (pending w) (out w ++ [o]).

(** ** Queries on the ledger *)

(** [getDocs(query(votesRef, where('voteID', '==', voteId)))] *)
Definition byVoteID (voteId : string) (docs : list Vote) : list Vote :=
  List.filter (fun v => String.eqb (v_voteID v) voteId) docs.

(** [getDocs(query(votesRef, where('IP', '==', ip)))] *)
Definition byIP (ip : string) (docs : list Vote) : list Vote :=
  List.filter (fun v => String.eqb (v_IP v) ip) docs.

(** [!voteIdQuery.empty || !ipQuery.empty], the test of [checkVoteStatus]. *)
Definition hasVoteFor (voteId ip : string) (docs : list Vote) : bool :=
  negb (bool_decide (byVoteID voteId docs = []))
  || negb (bool_decide (byIP ip docs = [])).

(** ** The functions of the component *)

(** [generateVoteId]; [uuid] is what [crypto.randomUUID()] returns when it is
    called. *)
Definition generateVoteId (uuid : string) (w : world) : string * world :=
  match localStorage w with
  | Some storedVoteId =>
      if str_truthy storedVoteId then (storedVoteId, w)
      else (uuid, setItem uuid w)
  | None => (uuid, setItem uuid w)
  end.

(** [checkVoteStatus] up to its [await]: the two queries are built from
    [voteId] and from the [userIP] of the render the function closes over. *)
Definition checkVoteStatus (uuid : string) (w : world) : world :=
  let '(voteId, w1) := generateVoteId uuid w in
  suspend (AwaitCheckVoteStatus voteId (userIP w)) w1.

(** [checkVoteStatus] from the [await] on, [finally] included. *)
Definition checkVoteStatus_resume (voteId ip : string) (r : outcome) (w : world)
  : world :=
  let w1 :=
    match r with
    | Resolved _ _ =>
        match byVoteID voteId (ledger w), byIP ip (ledger w) with
        | [], [] => w
        | _ :: _, _ => setItem voteId (setHasVoted true w)
        | [], d :: _ => setItem (v_voteID d) (setHasVoted true w)
        end
    | Rejected _ => emit (ConsoleError "Error checking vote status:") w
    end in
  setLoading false w1.

(** [fetchVoteStats] up to its [await]; [from_submit] records that
    [submitVote] awaits the call. *)
Definition fetchVoteStats (from_submit : bool) (w : world) : world :=
  suspend (AwaitFetchVoteStats from_submit) w.

(** [fetchVoteStats] from the [await] on: the [forEach] and [setVoteStats],
    or the [catch] block when [getDocs] rejected or the loop threw;
    followed, when [submitVote] awaited the call, by the success toast of
    [submitVote]. *)
Definition fetchVoteStats_resume (from_submit : bool) (r : outcome) (w : world)
  : world :=
  let w1 :=
    match r with
    | Resolved _ _ =>
        match Tally.computeTally (ledger w) with
        | Some stats => setVoteStats stats w
        | None => emit (ConsoleError "Error fetching vote stats:") w
        end
    | Rejected _ => emit (ConsoleError "Error fetching vote stats:") w
    end in
  if from_submit then emit (Toast VoteRecorded) w1 else w1.

(** [checkVoteByIP] up to its [await]. *)
Definition checkVoteByIP (ip : string) (w : world) : world :=
  if negb (str_truthy ip) then w else suspend (AwaitCheckVoteByIP ip) w.

Definition checkVoteByIP_resume (ip : string) (r : outcome) (w : world) : world :=
  match r with
  | Resolved _ _ =>
      match byIP ip (ledger w) with
      | [] => w
      | d :: _ => setItem (v_voteID d) (setHasVoted true w)
      end
  | Rejected _ => emit (ConsoleError "Error checking vote by IP:") w
  end.

Definition fetchIP (w : world) : world := suspend AwaitFetchIP w.

Definition fetchIP_resume (r : outcome) (w : world) : world :=
  match r with
  | Resolved ip _ =>
      let w1 := setUserIP ip w in
      if str_truthy ip then checkVoteByIP ip w1 else w1
  | Rejected _ => emit (ConsoleError "Error fetching IP:") w
  end.

(** [onCaptchaChange]; the widget passes the token, or [null] on expiry. *)
Definition onCaptchaChange (value : option string) (w : world) : world :=
  match value with
  | Some token =>
      if str_truthy token
      then setShowCaptcha false (setCaptchaVerified true w)
      else w
  | None => w
  end.

Definition handleVoteClick (w : world) : world :=
  if hasVoted w then emit (Toast AlreadyVoted) w
  else setShowCaptcha true w.

(** [submitVote] up to its [await]; [now] is [new Date().toISOString()]. *)
Definition submitVote (option : jsval) (uuid now : string) (w : world)
  : world :=
  if hasVoted w then emit (Toast AlreadyVoted) w
  else if negb (captchaVerified w)
  then setShowCaptcha true (emit (Toast VerificationNeeded) w)
  else
    let '(voteId, w1) := generateVoteId uuid w in
    suspend (AwaitAddDoc (mkVote option (userIP w) voteId now)) w1.

(** [submitVote] from the [await] on: the rest of the [try] block when
    [addDoc] resolved (up to the next [await]), the [catch] block when it
    rejected. *)
Definition submitVote_resume (doc : Vote) (r : outcome) (w : world) : world :=
  match r with
  | Resolved _ slot =>
      fetchVoteStats true
        (setHasVoted true
           (emit (LogEvent (vote_submitted (v_option doc)))
              (store slot doc w)))
  | Rejected message =>
      emit (Toast SubmitError)
        (emit (LogEvent (vote_error message))
           (emit (ConsoleError "Error submitting vote:") w))
  end.

(** The effect of [useEffect(..., [])], run once after the first render. *)
Definition mount (uuid : string) (w : world) : world :=
  emit (LogEvent page_view)
    (fetchIP (fetchVoteStats false (checkVoteStatus uuid w))).

(** The world at the first render: the [useState] defaults, whatever the
    browser has stored and whatever the collection holds. *)
Definition initial (stored : option string) (docs : list Vote) : world :=
  mkWorld false Tally.stats0 true "" false false stored docs [] [].

(** ** Events *)

Inductive event :=
| Click                                          (* [handleVoteClick()] *)
| CaptchaChange (value : option string)          (* [onCaptchaChange(value)] *)
| CloseCaptcha                                   (* the modal's [onClose] *)
| Submit (option : jsval) (uuid now : string)    (* [submitVote(option)] *)
| Settle (i : nat) (r : outcome)                 (* the [i]-th await settles *)
| ForeignWrite (slot : nat) (doc : Vote).         (* another client adds a vote *)

Definition resume (t : task) (r : outcome) (w : world) : world :=
  match t with
  | AwaitCheckVoteStatus voteId ip => checkVoteStatus_resume voteId ip r w
  | AwaitFetchIP => fetchIP_resume r w
  | AwaitCheckVoteByIP ip => checkVoteByIP_resume ip r w
  | AwaitFetchVoteStats from_submit => fetchVoteStats_resume from_submit r w
  | AwaitAddDoc doc => submitVote_resume doc r w
  end.

Definition step (w : world) (e : event) : world :=
  match e with
  | Click => handleVoteClick w
  | CaptchaChange value => onCaptchaChange value w
  | CloseCaptcha => setShowCaptcha false w
  | Submit option uuid now => submitVote option uuid now w
  | Settle i r =>
      match pending w !! i with
      | Some t => resume t r (set_pending (delete i (pending w)) w)
      | None => w
      end
  | ForeignWrite slot doc => store slot doc w
  end.

Definition run (w : world) (es : list event) : world := fold_left step es w.

(** *** Vocabulary for the properties of the gate *)

(** The number of [addDoc] calls in flight. *)
Definition is_addDoc (t : task) : bool :=
  match t with AwaitAddDoc _ => true | _ => false end.

Definition appends_in_flight (w : world) : nat :=
  length (List.filter is_addDoc (pending w)).

(** ** What the component renders *)

(** The three bodies the component can return: the loading text, the poll
    with its three buttons, or the results with the chart and the total. *)
Inductive page :=
| LoadingPage
| PollPage
| ResultsPage (stats : gmap string jsnum) (total : jsnum).

(** The [return] of [App]: the page, and whether the challenge modal is open.
    While [loading] the early return renders no modal at all. *)
Definition render (w : world) : page * bool :=
  if loading w then (LoadingPage, false)
  else ((if negb (hasVoted w) then PollPage
         else ResultsPage (voteStats w) (Tally.totalVotes (voteStats w))),
        showCaptcha w).

(** The events the rendered page can produce.  A button exists on the poll
    page only and its handler is [() => !hasVoted && handleVoteClick()]; the
    challenge and the modal's close button exist while the modal is open;
    no element calls [submitVote].  Promises settle and other clients write
    at any time. *)
Definition offered (w : world) (e : event) : bool :=
  match e with
  | Click =>
      match fst (render w) with
      | PollPage => negb (hasVoted w)
      | _ => false
      end
  | CaptchaChange _ | CloseCaptcha => snd (render w)
  | Submit _ _ _ => false
  | Settle _ _ | ForeignWrite _ _ => true
  end.

Fixpoint offered_all (w : world) (es : list event) : bool :=
  match es with
  | [] => true
  | e :: es' => offered w e && offered_all (step w e) es'
  end.

(** *** Vocabulary for the further properties *)

Definition is_toast (o : output) : bool :=
  match o with Toast _ => true | _ => false end.

(** The toasts shown so far. *)
Definition toasts (w : world) : list output := List.filter is_toast (out w).

(** A suspended call that belongs to no submission. *)
Definition quiet (t : task) : bool :=
  match t with
  | AwaitAddDoc _ | AwaitFetchVoteStats true => false
  | _ => true
  end.

(** The collection [docs] after the writes of other clients in [es]. *)
Definition after_writes (es : list event) (docs : list Vote) : list Vote :=
  fold_left
    (fun l e =>
       match e with
       | ForeignWrite slot doc => take slot l ++ doc :: drop slot l
       | _ => l
       end) es docs.

(** The displayed tally is the tally of an earlier state of the ledger:
    of some of the documents it holds now, in their order. *)
Definition tally_of_earlier (w : world) : Prop :=
  ∃ earlier, sublist earlier (ledger w)
             ∧ Tally.computeTally earlier = Some (voteStats w).

(** A submission is under way, or the visitor is verified, never the first
    without the second. *)
Definition submits_verified (w : world) : Prop :=
  captchaVerified w = true
  ∨ Forall (fun t => is_addDoc t = false) (pending w).

(** ** The functions at work *)

Example tally_abc :
  Tally.computeTally
    [mkVote (JStr "A") "1.1.1.1" "u1" "t1"; mkVote (JStr "C") "" "u2" "t2";
     mkVote (JStr "A") "2.2.2.2" "u3" "t3"]
  = Some (<["A" := Num 2]> (<["B" := Num 0]> (<["C" := Num 1]> ∅))).
Proof. vm_compute. reflexivity. Qed.

(** A visitor votes A, passes the challenge, and the append succeeds: the
    ledger holds the vote, the tally is A: 1, B: 0, C: 0 with total 1, and
    [hasVoted] is set. *)
Example vote_for_A :
  let w := run (mount "3b241101-e2bb-4255-8caf-4136c566a962" (initial None []))
             [Settle 0 (Resolved "" 0); Settle 0 (Resolved "" 0);
              Settle 0 (Resolved "203.0.113.7" 0); Settle 0 (Resolved "" 0);
              Click; CaptchaChange (Some "03AFcWeA5");
              Submit (JStr "A") "9f1c2d3e-0a1b-4c2d-8e3f-a4b5c6d7e8f9"
                "2024-12-01T10:00:05.000Z";
              Settle 0 (Resolved "" 0); Settle 0 (Resolved "" 0)] in
  ledger w = [mkVote (JStr "A") "203.0.113.7"
                "3b241101-e2bb-4255-8caf-4136c566a962" "2024-12-01T10:00:05.000Z"]
  ∧ voteStats w !! "A" = Some (Num 1)
  ∧ voteStats w !! "B" = Some (Num 0)
  ∧ voteStats w !! "C" = Some (Num 0)
  ∧ Tally.totalVotes (voteStats w) = Num 1
  ∧ hasVoted w = true
  ∧ pending w = []
  ∧ out w = [LogEvent page_view; LogEvent (vote_submitted (JStr "A"));
             Toast VoteRecorded].
Proof. vm_compute. repeat split. Qed.

(** The same visitor on reload: the stored token is found in the ledger and
    the gate starts blocked. *)
Example reload_after_voting :
  let mine := mkVote (JStr "A") "203.0.113.7" "id-1" "2024-12-01T10:00:05.000Z" in
  let w := run (mount "9f1c2d3e-0a1b-4c2d-8e3f-a4b5c6d7e8f9"
                  (initial (Some "id-1") [mine]))
             [Settle 0 (Resolved "" 0)] in
  hasVoted w = true ∧ loading w = false ∧ showCaptcha w = false
  ∧ localStorage w = Some "id-1".
Proof. vm_compute. repeat split. Qed.

(** A key that names an inherited property: the first such vote makes the
    count NaN, and so the total; a vote for [__proto__] leaves no trace. *)
Example tally_inherited_key :
  let votes := [mkVote (JStr "toString") "203.0.113.7" "id-1" "t1"] in
  (Tally.computeTally votes ≫= lookup "toString") = Some NaN
  ∧ Tally.totalVotes <$> Tally.computeTally votes = Some NaN
  ∧ Tally.computeTally [mkVote (JStr "__proto__") "203.0.113.7" "id-1" "t1"]
    = Some Tally.stats0.
Proof. vm_compute. repeat split. Qed.

(** Options that are not strings: the number 0 is skipped, the number 7 and
    an empty array are counted under "7" and "", a map without a [toString]
    field under "[object Object]"; at a map with such a field the loop
    throws. *)
Example tally_other_values :
  let doc o := mkVote o "203.0.113.7" "id-1" "t1" in
  Tally.computeTally [doc (JNum "0")] = Some Tally.stats0
  ∧ (Tally.computeTally [doc (JNum "7")] ≫= lookup "7") = Some (Num 1)
  ∧ (Tally.computeTally [doc (JArr (Some ""))] ≫= lookup "") = Some (Num 1)
  ∧ (Tally.computeTally [doc (JMap ["name"])] ≫= lookup "[object Object]")
    = Some (Num 1)
  ∧ Tally.computeTally [doc (JStr "A"); doc (JMap ["toString"])] = None.
Proof. vm_compute. repeat split. Qed.

(** * Properties of the tally *)

Module TallyFacts.
Import Tally.

Lemma jsadd_swap (y a b : jsnum) : jsadd (jsadd y a) b = jsadd (jsadd y b) a.
Proof. destruct y, a, b; simpl; try reflexivity. f_equal. lia. Qed.

Lemma number_or0_own (z : Z) : number_or0 (POwn (Num z)) = Num z.
Proof. simpl. destruct (Z.eqb_spec z 0) as [->|]; reflexivity. Qed.

Lemma proto_key_not_own (k : string) :
  is_proto_name k = false → String.eqb k "__proto__" = false.
Proof.
  intros H. destruct (String.eqb_spec k "__proto__") as [->|]; [|done].
  vm_compute in H. discriminate.
Qed.

Lemma hits_key (k : string) (v : Vote) :
  hits k v = true ↔ truthy (v_option v) = true ∧ to_key (v_option v) = Some k.
Proof.
  unfold hits. rewrite andb_true_iff, bool_decide_eq_true. done.
Qed.

Lemma hits_throws (k : string) (v : Vote) : hits k v = true → throws v = false.
Proof.
  intros [Ht Hk]%hits_key. unfold throws. by rewrite Ht, Hk.
Qed.

(** The loop throws exactly when it meets an entry at which the callback
    throws; otherwise it leaves what the callbacks leave one after the
    other. *)
Lemma forEach_counted (votes : list Vote) :
  ∀ m : gmap string jsnum,
    forEach votes m
    = if existsb throws votes then None
      else Some (fold_left counted votes m).
Proof.
  induction votes as [|v votes IH]; intros m; [done|].
  cbn [forEach existsb fold_left]. unfold counted at 2, throws at 1, tally_step.
  destruct (truthy (v_option v)); simpl; [|apply IH].
  destruct (to_key (v_option v)) as [k|]; simpl; [apply IH|done].
Qed.

(** One callback touches at most the property named by the entry. *)
Lemma counted_other (m : gmap string jsnum) (v : Vote) (k : string) :
  hits k v = false → counted m v !! k = m !! k.
Proof.
  unfold hits, counted, tally_step, assign, put. intros H.
  destruct (truthy (v_option v)); [|done]. simpl in H.
  destruct (to_key (v_option v)) as [k'|]; [|done].
  apply bool_decide_eq_false in H.
  destruct (String.eqb k' "__proto__"); [done|].
  rewrite lookup_insert_ne; [done|]. congruence.
Qed.

Lemma counted_same (m : gmap string jsnum) (v : Vote) (k : string) :
  hits k v = true → counted m v !! k = next k (m !! k).
Proof.
  intros [Ht He]%hits_key.
  unfold counted, tally_step, assign, put, get, next. rewrite Ht, He.
  destruct (String.eqb k "__proto__"); [done|].
  rewrite lookup_insert_eq. by destruct (m !! k).
Qed.

Lemma counted_hit (m : gmap string jsnum) (v : Vote) (k : string) :
  hits k v = true → is_proto_name k = false →
  (m !! k = None ∨ ∃ z, m !! k = Some (Num z)) →
  counted m v !! k = bump (m !! k) 1.
Proof.
  intros H Hk Hm. rewrite (counted_same m v k H). unfold next.
  rewrite (proto_key_not_own _ Hk), Hk.
  destruct Hm as [->|[z ->]]; [done|].
  by rewrite number_or0_own.
Qed.

Lemma count_for_nonneg (k : string) (votes : list Vote) : 0 ≤ count_for k votes.
Proof. unfold count_for. lia. Qed.

Lemma count_for_cons (k : string) (v : Vote) (votes : list Vote) :
  count_for k (v :: votes)
  = (if hits k v then 1 else 0) + count_for k votes.
Proof.
  unfold count_for. simpl. destruct (hits k v); simpl length; lia.
Qed.


Lemma bump_bump (o : option jsnum) (a b : Z) :
  0 ≤ a → 0 ≤ b → bump (bump o a) b = bump o (a + b).
Proof.
  intros Ha Hb. destruct o as [[z|]|]; simpl; [f_equal; f_equal; lia|done|].
  destruct (Z.eqb_spec a 0) as [->|Hna]; simpl.
  - reflexivity.
  - destruct (Z.eqb_spec (a + b) 0); [lia|reflexivity].
Qed.

Lemma bump_numeric (o : option jsnum) (c : Z) :
  (o = None ∨ ∃ z, o = Some (Num z)) →
  bump o c = None ∨ ∃ z, bump o c = Some (Num z).
Proof.
  intros [->|[z ->]]; simpl; [destruct (Z.eqb c 0)|]; eauto.
Qed.

(** The property [k] after the whole loop, for any documents and any key:
    the entries that name [k] act on it one after the other, the rest not at
    all. *)
Lemma fold_counted_iter (votes : list Vote) :
  ∀ (m : gmap string jsnum) (k : string),
    fold_left counted votes m !! k
    = Nat.iter (length (List.filter (hits k) votes)) (next k) (m !! k).
Proof.
  induction votes as [|v votes IH]; intros m k; [done|].
  cbn [fold_left List.filter]. rewrite IH.
  destruct (hits k v) eqn:Hh.
  - cbn [length]. by rewrite Nat.iter_succ_r, (counted_same m v k Hh).
  - by rewrite (counted_other m v k Hh).
Qed.

Lemma iter_next_own (k : string) (o : option jsnum) (n : nat) :
  is_proto_name k = false → (o = None ∨ ∃ z, o = Some (Num z)) →
  Nat.iter n (next k) o = bump o (Z.of_nat n).
Proof.
  intros Hk Ho. induction n as [|n IH].
  - simpl. destruct Ho as [->|[z ->]]; simpl; [done|]. do 2 f_equal. lia.
  - rewrite Nat.iter_succ, IH.
    assert (Hn : next k (bump o (Z.of_nat n)) = bump (bump o (Z.of_nat n)) 1).
    { unfold next. rewrite (proto_key_not_own _ Hk), Hk.
      destruct (bump_numeric o (Z.of_nat n) Ho) as [->|[z ->]]; [done|].
      by rewrite number_or0_own. }
    rewrite Hn, bump_bump by lia. f_equal. lia.
Qed.

Lemma iter_next_inherited (k : string) (n : nat) :
  is_proto_name k = true → String.eqb k "__proto__" = false →
  Nat.iter (S (S n)) (next k) None = Some (Num (Z.of_nat n + 1)).
Proof.
  intros Hk Hp. induction n as [|n IH].
  - rewrite !Nat.iter_succ. simpl. unfold next. by rewrite Hp, Hk.
  - rewrite Nat.iter_succ, IH. unfold next. rewrite Hp, number_or0_own. simpl.
    do 2 f_equal. lia.
Qed.

(** *** The grand total *)

Lemma totalVotes_insert_fresh (m : gmap string jsnum) (k : string) (x : jsnum) :
  m !! k = None → totalVotes (<[k := x]> m) = jsadd (totalVotes m) x.
Proof.
  intros Hk. unfold totalVotes.
  apply (map_fold_insert_L (fun _ b a => jsadd a b)); [|done].
  intros. apply jsadd_swap.
Qed.

Lemma totalVotes_delete (m : gmap string jsnum) (k : string) (x : jsnum) :
  m !! k = Some x → totalVotes m = jsadd (totalVotes (delete k m)) x.
Proof.
  intros Hk. unfold totalVotes.
  apply (map_fold_delete_L (fun _ b a => jsadd a b)); [|done].
  intros. apply jsadd_swap.
Qed.

(** A finite total means every property is a number. *)
Lemma totalVotes_numeric (m : gmap string jsnum) (t : Z) (k : string) (x : jsnum) :
  totalVotes m = Num t → m !! k = Some x → ∃ z, x = Num z.
Proof.
  intros Ht Hk. rewrite (totalVotes_delete m k x Hk) in Ht.
  destruct (totalVotes (delete k m)), x; simpl in Ht; try discriminate. eauto.
Qed.

Lemma totalVotes_NaN_found (m : gmap string jsnum) (k : string) :
  m !! k = Some NaN → totalVotes m = NaN.
Proof.
  intros Hk. rewrite (totalVotes_delete m k NaN Hk).
  by destruct (totalVotes (delete k m)).
Qed.

Lemma totalVotes_assign (m : gmap string jsnum) (k : string) (t : Z) :
  totalVotes m = Num t → is_proto_name k = false →
  totalVotes (assign m k) = Num (t + 1).
Proof.
  intros Ht Hk. unfold assign, put, get.
  rewrite (proto_key_not_own _ Hk).
  destruct (m !! k) as [x|] eqn:Hm.
  - destruct (totalVotes_numeric m t k x Ht Hm) as [z ->].
    rewrite number_or0_own. simpl jsadd.
    rewrite <- insert_delete_eq.
    rewrite totalVotes_insert_fresh by apply lookup_delete_eq.
    rewrite (totalVotes_delete m k _ Hm) in Ht.
    destruct (totalVotes (delete k m)) as [d|]; simpl in *; [|discriminate].
    injection Ht as Ht. f_equal. lia.
  - rewrite Hk. simpl. rewrite totalVotes_insert_fresh by done.
    rewrite Ht. reflexivity.
Qed.

Lemma totalVotes_counted (m : gmap string jsnum) (v : Vote) (t : Z) :
  totalVotes m = Num t →
  (∀ k, to_key (v_option v) = Some k → is_proto_name k = false) →
  throws v = false →
  totalVotes (counted m v)
  = Num (t + (if truthy (v_option v) then 1 else 0)).
Proof.
  intros Ht Hk Hth. unfold counted, tally_step. unfold throws in Hth.
  destruct (truthy (v_option v)); [|rewrite Ht; f_equal; lia].
  destruct (to_key (v_option v)) as [k|] eqn:Ek.
  - apply totalVotes_assign; [done|]. by apply Hk.
  - simpl in Hth. discriminate.
Qed.

Lemma totalVotes_fold (votes : list Vote) :
  ∀ (m : gmap string jsnum) (t : Z),
    own_keyed votes → convertible votes → totalVotes m = Num t →
    totalVotes (fold_left counted votes m)
    = Num (t + Z.of_nat (length votes)
             - Z.of_nat (length (List.filter skipped votes))).
Proof.
  induction votes as [|v votes IH]; intros m t Hown Hconv Ht.
  - simpl. rewrite Ht. f_equal. lia.
  - simpl fold_left.
    rewrite (IH _ (t + (if truthy (v_option v) then 1 else 0))).
    + f_equal. simpl. unfold skipped at 2.
      destruct (truthy (v_option v)); simpl length; lia.
    + intros x k Hx. apply Hown. by right.
    + intros x Hx. apply Hconv. by right.
    + apply totalVotes_counted; [done| |].
      * intros k. apply Hown. by left.
      * apply Hconv. by left.
Qed.

Lemma totalVotes_stats0 : totalVotes stats0 = Num 0.
Proof. vm_compute. reflexivity. Qed.

(** *** Order *)

(** Two callbacks commute: each reads and writes one property only. *)
Lemma counted_comm (m : gmap string jsnum) (a b : Vote) :
  counted (counted m a) b = counted (counted m b) a.
Proof.
  apply map_eq. intros k.
  destruct (hits k a) eqn:Ha, (hits k b) eqn:Hb.
  - by rewrite !counted_same.
  - rewrite (counted_other _ b k Hb), !(counted_same _ a k Ha).
    by rewrite (counted_other _ b k Hb).
  - rewrite (counted_other _ a k Ha), !(counted_same _ b k Hb).
    by rewrite (counted_other _ a k Ha).
  - by rewrite !counted_other.
Qed.

Lemma fold_counted_perm (votes votes' : list Vote) :
  Permutation votes votes' →
  ∀ m : gmap string jsnum,
    fold_left counted votes m = fold_left counted votes' m.
Proof.
  induction 1 as [|x l l' _ IH|x y l|l l' l'' _ IH1 _ IH2]; intros m; simpl.
  - reflexivity.
  - apply IH.
  - by rewrite counted_comm.
  - by rewrite IH1.
Qed.

Lemma existsb_perm {A : Type} (f : A → bool) (l l' : list A) :
  Permutation l l' → existsb f l = existsb f l'.
Proof.
  induction 1 as [|x l l' _ IH|x y l|l l' l'' _ IH1 _ IH2]; simpl.
  - reflexivity.
  - by rewrite IH.
  - by destruct (f x), (f y).
  - by rewrite IH1.
Qed.

Lemma existsb_throws_false (votes : list Vote) :
  convertible votes → existsb throws votes = false.
Proof.
  intros H. induction votes as [|v votes IH]; [done|]. simpl.
  rewrite (H v (or_introl eq_refl)). apply IH.
  intros x Hx. apply H. by right.
Qed.

Lemma stats0_lookup (k : string) :
  stats0 !! k = if recognized k then Some (Num 0) else None.
Proof.
  unfold stats0, recognized.
  destruct (decide (k = "A")) as [->|HA]; [done|].
  destruct (decide (k = "B")) as [->|HB]; [done|].
  destruct (decide (k = "C")) as [->|HC]; [done|].
  rewrite !lookup_insert_ne, lookup_empty by done.
  rewrite bool_decide_eq_false_2; [done|].
  rewrite !elem_of_cons, elem_of_nil. tauto.
Qed.

Lemma recognized_own (k : string) :
  recognized k = true → is_proto_name k = false.
Proof.
  unfold recognized. intros H. apply bool_decide_eq_true in H.
  rewrite !elem_of_cons, elem_of_nil in H.
  by destruct H as [->|[->|[->|[]]]].
Qed.

(** The property [k] of a completed tally, for a key that is not an
    inherited name. *)
Lemma computeTally_own_key (votes : list Vote) (stats : gmap string jsnum)
    (k : string) :
  computeTally votes = Some stats → is_proto_name k = false →
  stats !! k = bump (stats0 !! k) (count_for k votes).
Proof.
  unfold computeTally. rewrite forEach_counted.
  destruct (existsb throws votes); [done|]. intros [= <-] Hk.
  rewrite fold_counted_iter. apply (iter_next_own k _ _ Hk).
  rewrite stats0_lookup. destruct (recognized k); eauto.
Qed.

End TallyFacts.

(** * Properties of the gate *)

Module GateFacts.

Ltac gate_unfold :=
  unfold step, resume, mount, handleVoteClick, onCaptchaChange, submitVote,
    submitVote_resume, checkVoteStatus, checkVoteStatus_resume,
    fetchVoteStats_resume, fetchVoteStats, checkVoteByIP_resume, fetchIP,
    fetchIP_resume, checkVoteByIP, generateVoteId, suspend, emit, store,
    setItem, setHasVoted, setVoteStats, setLoading, setUserIP,
    setCaptchaVerified, setShowCaptcha, set_pending in *.

Ltac flip_negb :=
  repeat match goal with
         | H : negb _ = true |- _ => apply negb_true_iff in H
         | H : negb _ = false |- _ => apply negb_false_iff in H
         end.

Ltac gate_cases :=
  gate_unfold; repeat case_match; simplify_eq/=; flip_negb;
  try done; try congruence.

Lemma str_truthy_nonempty (s : string) : str_truthy s = true ↔ s ≠ "".
Proof.
  unfold str_truthy. destruct (String.eqb_spec s ""); simpl; split; done.
Qed.

Lemma settle_lookup (w : world) (i : nat) (t : task) (r : outcome) :
  pending w !! i = Some t →
  step w (Settle i r) = resume t r (set_pending (delete i (pending w)) w).
Proof. intros H. simpl. by rewrite H. Qed.

(** No function of the component resets a flag once it is set. *)
Lemma step_captchaVerified (w : world) (e : event) :
  captchaVerified w = true → captchaVerified (step w e) = true.
Proof. intros H. destruct e; gate_cases. Qed.

Lemma step_hasVoted (w : world) (e : event) :
  hasVoted w = true → hasVoted (step w e) = true.
Proof. intros H. destruct e; gate_cases. Qed.

Lemma run_captchaVerified (es : list event) :
  ∀ w, captchaVerified w = true → captchaVerified (run w es) = true.
Proof.
  induction es as [|e es IH]; intros w H; [done|].
  apply IH. by apply step_captchaVerified.
Qed.

Lemma run_hasVoted (es : list event) :
  ∀ w, hasVoted w = true → hasVoted (run w es) = true.
Proof.
  induction es as [|e es IH]; intros w H; [done|].
  apply IH. by apply step_hasVoted.
Qed.

(** A new document leaves the others where they are, relative to each
    other. *)
Lemma sublist_placed {A : Type} (slot : nat) (x : A) (l : list A) :
  sublist l (take slot l ++ x :: drop slot l).
Proof.
  rewrite <- (take_drop slot l) at 1.
  apply sublist_app; [done|]. by apply sublist_cons.
Qed.

Lemma In_placed {A : Type} (slot : nat) (x y : A) (l : list A) :
  In y (take slot l ++ x :: drop slot l) ↔ y = x ∨ In y l.
Proof.
  assert (E : In y l ↔ In y (take slot l) ∨ In y (drop slot l)).
  { by rewrite <- in_app_iff, take_drop. }
  rewrite E, in_app_iff. simpl. split.
  - intros [H|[H|H]]; [right; by left|left; by symmetry|right; by right].
  - intros [H|[H|H]]; [right; left; by symmetry|by left|right; by right].
Qed.

(** Every event leaves the collection as it is or places one new document
    in it. *)
Lemma step_ledger (w : world) (e : event) :
  ledger (step w e) = ledger w
  ∨ ∃ slot doc,
      ledger (step w e) = take slot (ledger w) ++ doc :: drop slot (ledger w).
Proof.
  destruct e as [|value| |o u n|i r|slot doc]; try solve [left; gate_cases].
  - simpl. destruct (pending w !! i) as [t|] eqn:Hp; [|by left].
    destruct t as [voteId ip| |ip|fs|doc]; try solve [left; gate_cases].
    destruct r as [p slot|msg]; [|by left]. right. by exists slot, doc.
  - right. by exists slot, doc.
Qed.

Lemma step_ledger_sublist (w : world) (e : event) :
  sublist (ledger w) (ledger (step w e)).
Proof.
  destruct (step_ledger w e) as [->|(slot & doc & ->)]; [done|].
  apply sublist_placed.
Qed.

Lemma run_ledger_sublist (es : list event) :
  ∀ w, sublist (ledger w) (ledger (run w es)).
Proof.
  induction es as [|e es IH]; intros w; [done|].
  etrans; [apply (step_ledger_sublist w e)|apply (IH (step w e))].
Qed.

Lemma run_ledger_In (es : list event) (w : world) (d : Vote) :
  In d (ledger w) → In d (ledger (run w es)).
Proof.
  rewrite <- !list_elem_of_In. intros H.
  by apply (sublist_subseteq _ _ (run_ledger_sublist es w)).
Qed.

Lemma filter_nonempty {A : Type} (f : A → bool) (l : list A) :
  List.filter f l ≠ [] ↔ ∃ x, In x l ∧ f x = true.
Proof.
  split.
  - destruct (List.filter f l) as [|x xs] eqn:E; [done|]. intros _.
    exists x. apply List.filter_In. rewrite E. by left.
  - intros (x & Hx & Hf) E.
    assert (Hin : In x (List.filter f l)) by (by apply List.filter_In).
    by rewrite E in Hin.
Qed.

Lemma hasVoteFor_own (doc : Vote) (ip : string) (docs : list Vote) :
  In doc docs → hasVoteFor (v_voteID doc) ip docs = true.
Proof.
  intros H. unfold hasVoteFor, byVoteID. apply orb_true_iff. left.
  apply negb_true_iff, bool_decide_eq_false, filter_nonempty.
  exists doc. split; [done|]. apply String.eqb_refl.
Qed.

End GateFacts.

Import Tally TallyFacts GateFacts.

(** * The tally, claim by claim *)

Lemma forEach_skips (votes : list Vote) :
  ∀ m : gmap string jsnum,
    forEach votes m
    = forEach (List.filter (fun v => negb (skipped v)) votes) m.
Proof.
  induction votes as [|v votes IH]; intros m; [done|].
  cbn [List.filter]. unfold skipped at 1.
  destruct (truthy (v_option v)) eqn:Hv; simpl.
  - destruct (tally_step m v); [apply IH|done].
  - unfold tally_step. rewrite Hv. apply IH.
Qed.

(** C3, as stated, fails: an entry whose [option] is the unrecognized string
    "D" is not skipped.  It gets a property of its own in the tally and is
    part of the grand total, which is 1 where the claim predicts
    [length votes] minus the one unrecognized entry, that is 0. *)
Lemma C3_unrecognized_option_is_counted :
  let votes := [mkVote (JStr "D") "203.0.113.7" "id-1" "2024-12-01T10:00:00.000Z"] in
  unrecognized (mkVote (JStr "D") "203.0.113.7" "id-1" "2024-12-01T10:00:00.000Z") = true
  ∧ (computeTally votes ≫= lookup "D") = Some (Num 1)
  ∧ totalVotes <$> computeTally votes = Some (Num 1)
  ∧ totalVotes <$> computeTally votes
    ≠ Some (Num (Z.of_nat (length votes)
                 - Z.of_nat (length (List.filter unrecognized votes)))).
Proof. vm_compute. repeat split; congruence. Qed.

(** C3, amended: for every sequence of votes all of whose [option] values
    convert to a property key, none of them to a property name inherited
    from [Object.prototype], [computeTally] completes.  It skips exactly the
    entries whose [option] is falsy (absent, null, false, 0, NaN or the empty
    string).  Every other entry is counted under its own key, whether or not
    that key is one of the fixed options A, B, C; the fixed options without
    votes keep the count 0, keys never seen are absent; and the grand total
    is the length of the input minus the number of entries with a falsy
    [option]. *)
Theorem C3_tally_counts_every_truthy_option (votes : list Vote) :
  convertible votes → own_keyed votes →
  ∃ stats,
    computeTally votes = Some stats
    ∧ computeTally (List.filter (fun v => negb (skipped v)) votes) = Some stats
    ∧ (∀ k, stats !! k
            = if recognized k || (0 <? count_for k votes)
              then Some (Num (count_for k votes)) else None)
    ∧ totalVotes stats
      = Num (Z.of_nat (length votes)
             - Z.of_nat (length (List.filter skipped votes))).
Proof.
  intros Hconv Hown.
  assert (E : computeTally votes = Some (fold_left counted votes stats0)).
  { unfold computeTally. by rewrite forEach_counted, existsb_throws_false. }
  exists (fold_left counted votes stats0).
  split; [done|]. split; [|split].
  - unfold computeTally in *. by rewrite <- forEach_skips.
  - intros k. pose proof (count_for_nonneg k votes) as Hc.
    destruct (is_proto_name k) eqn:Hk.
    + (* no entry names an inherited property *)
      assert (H0 : List.filter (hits k) votes = []).
      { destruct (List.filter (hits k) votes) as [|v l] eqn:Ef; [done|].
        assert (Hv : In v (List.filter (hits k) votes)) by (rewrite Ef; by left).
        apply List.filter_In in Hv as [Hv [_ Hh]%hits_key].
        pose proof (Hown v k Hv Hh). congruence. }
      rewrite fold_counted_iter. unfold count_for. rewrite H0. simpl.
      rewrite stats0_lookup.
      destruct (recognized k) eqn:Hr; [|done].
      apply recognized_own in Hr. congruence.
    + rewrite (computeTally_own_key votes _ k E Hk), stats0_lookup.
      destruct (recognized k); simpl; [done|].
      destruct (Z.eqb_spec (count_for k votes) 0),
        (Z.ltb_spec 0 (count_for k votes)); try lia; done.
  - rewrite (totalVotes_fold votes stats0 0 Hown Hconv totalVotes_stats0).
    f_equal.
Qed.

(** The amended C3 on a vote for A, a vote for the unlisted D, a vote whose
    option is the number 7 and documents without a usable [option]. *)
Lemma C3_tally_counts_every_truthy_option_witness :
  let votes := [mkVote (JStr "A") "203.0.113.7" "id-1" "t1";
                mkVote (JStr "D") "203.0.113.8" "id-2" "t2";
                mkVote JUndefined "203.0.113.9" "id-3" "t3";
                mkVote (JNum "7") "203.0.113.10" "id-4" "t4";
                mkVote (JNum "0") "203.0.113.11" "id-5" "t5"] in
  ∃ stats,
    computeTally votes = Some stats
    ∧ stats !! "A" = Some (Num 1)
    ∧ stats !! "B" = Some (Num 0)
    ∧ stats !! "D" = Some (Num 1)
    ∧ stats !! "7" = Some (Num 1)
    ∧ stats !! "undefined" = None
    ∧ totalVotes stats = Num 3.
Proof.
  intros votes.
  assert (Hconv : convertible votes).
  { intros v [<-|[<-|[<-|[<-|[<-|[]]]]]]; reflexivity. }
  assert (Hown : own_keyed votes).
  { intros v k [<-|[<-|[<-|[<-|[<-|[]]]]]] [= <-]; reflexivity. }
  destruct (C3_tally_counts_every_truthy_option votes Hconv Hown)
    as (stats & Hs & _ & Hk & Ht).
  exists stats. split; [exact Hs|].
  rewrite (Hk "A"), (Hk "B"), (Hk "D"), (Hk "7"), (Hk "undefined"), Ht.
  repeat split.
Defined.

(** C8: [computeTally] does not depend on the order of the votes: a
    permutation of the input yields the same mapping from keys to counts and
    the same grand total (and the loop throws for the one exactly when it
    throws for the other). *)
Theorem C8_tally_is_order_independent (votes votes' : list Vote) :
  Permutation votes votes' →
  computeTally votes = computeTally votes'
  ∧ totalVotes <$> computeTally votes = totalVotes <$> computeTally votes'.
Proof.
  intros Hp. assert (E : computeTally votes = computeTally votes').
  { unfold computeTally. rewrite !forEach_counted.
    by rewrite (existsb_perm throws _ _ Hp), (fold_counted_perm _ _ Hp). }
  by rewrite E.
Qed.

(** C8 on three votes, one of them keyed by an inherited property name. *)
Lemma C8_tally_is_order_independent_witness :
  let a := mkVote (JStr "A") "203.0.113.7" "id-1" "t1" in
  let d := mkVote (JStr "toString") "203.0.113.8" "id-2" "t2" in
  computeTally [a; d; a] = computeTally [d; a; a]
  ∧ totalVotes <$> computeTally [a; d; a]
    = totalVotes <$> computeTally [d; a; a].
Proof.
  intros a d. apply (C8_tally_is_order_independent [a; d; a] [d; a; a]).
  apply perm_swap.
Defined.

(** * The identity token, claim by claim *)

(** C9: [generateVoteId] is idempotent after the first creation.  A persisted
    (non-empty) token is returned as it is and nothing changes; with nothing
    persisted, the first call returns the fresh UUID and persists it, and a
    second call returns that same token and changes nothing, whatever UUID
    the generator would have produced next.  [crypto.randomUUID()] returns a
    string of 36 characters. *)
Theorem C9_generateVoteId_is_idempotent :
  (∀ (uuid t : string) (w : world),
      localStorage w = Some t → t ≠ "" → generateVoteId uuid w = (t, w))
  ∧ (∀ (uuid1 uuid2 : string) (w : world),
        localStorage w = None → String.length uuid1 = 36%nat →
        let r1 := generateVoteId uuid1 w in
        let r2 := generateVoteId uuid2 (snd r1) in
        fst r1 = uuid1
        ∧ localStorage (snd r1) = Some uuid1
        ∧ fst r2 = fst r1
        ∧ snd r2 = snd r1).
Proof.
  split.
  - intros uuid t w Hs Ht. unfold generateVoteId. rewrite Hs.
    apply str_truthy_nonempty in Ht. by rewrite Ht.
  - intros uuid1 uuid2 w Hs Hlen. unfold generateVoteId. rewrite Hs. simpl.
    assert (Ht : str_truthy uuid1 = true).
    { apply str_truthy_nonempty. intros ->. discriminate. }
    by rewrite Ht.
Qed.

(** C9 with a stored token, and with none. *)
Lemma C9_generateVoteId_is_idempotent_witness :
  let u1 := "3b241101-e2bb-4255-8caf-4136c566a962" in
  let u2 := "9f1c2d3e-0a1b-4c2d-8e3f-a4b5c6d7e8f9" in
  generateVoteId u2 (initial (Some u1) []) = (u1, initial (Some u1) [])
  ∧ fst (generateVoteId u2 (snd (generateVoteId u1 (initial None []))))
    = fst (generateVoteId u1 (initial None [])).
Proof.
  intros u1 u2. split.
  - apply (proj1 C9_generateVoteId_is_idempotent u2 u1 (initial (Some u1) [])).
    + reflexivity.
    + discriminate.
  - apply (proj2 C9_generateVoteId_is_idempotent u1 u2 (initial None [])).
    + reflexivity.
    + reflexivity.
Defined.

(** C2, as stated, fails: a visitor whose persisted token is "id-mine" opens
    the poll from an address from which "id-other" has voted.  When the
    address lookup and then [checkVoteByIP] complete, the persisted token has
    been overwritten with "id-other", by a function that is not
    [generateVoteId]. *)
Lemma C2_persisted_token_is_overwritten :
  let theirs := mkVote (JStr "A") "203.0.113.7" "id-other" "2024-12-01T10:00:00.000Z" in
  let w0 := mount "3b241101-e2bb-4255-8caf-4136c566a962"
              (initial (Some "id-mine") [theirs]) in
  let w1 := run w0 [Settle 2 (Resolved "203.0.113.7" 0)] in
  let w2 := run w1 [Settle 2 (Resolved "" 0)] in
  localStorage w0 = Some "id-mine"
  ∧ pending w1 !! 2%nat = Some (AwaitCheckVoteByIP "203.0.113.7")
  ∧ localStorage w1 = Some "id-mine"
  ∧ localStorage w2 = Some "id-other".
Proof. vm_compute. repeat split. Qed.

(** C2, amended: once a non-empty token is persisted, [generateVoteId] returns
    it and leaves the persisted copy alone.  The duplicate checks write the
    persisted copy, and nothing else does.  When [checkVoteStatus] resolves
    and finds a record for the identity it queried, it stores that identity;
    when it finds none for the identity but one for the address, and when
    [checkVoteByIP] resolves and finds one for the address, the persisted
    token is overwritten with the [voteID] of the first such record.  A check
    that finds nothing leaves the token alone. *)
Theorem C2_who_writes_the_persisted_token (w : world) (t : string) :
  localStorage w = Some t → t ≠ "" →
  (∀ uuid, generateVoteId uuid w = (t, w))
  ∧ (∀ e,
       localStorage (step w e) = Some t
       ∨ ∃ i p slot, e = Settle i (Resolved p slot)
          ∧ ((∃ voteId ip,
                pending w !! i = Some (AwaitCheckVoteStatus voteId ip)
                ∧ ((byVoteID voteId (ledger w) ≠ []
                    ∧ localStorage (step w e) = Some voteId)
                   ∨ ∃ d, In d (ledger w) ∧ v_IP d = ip
                          ∧ localStorage (step w e) = Some (v_voteID d)))
             ∨ (∃ ip d,
                  pending w !! i = Some (AwaitCheckVoteByIP ip)
                  ∧ In d (ledger w) ∧ v_IP d = ip
                  ∧ localStorage (step w e) = Some (v_voteID d))))
  ∧ (∀ i voteId ip p slot,
       pending w !! i = Some (AwaitCheckVoteStatus voteId ip) →
       let w' := step w (Settle i (Resolved p slot)) in
       (byVoteID voteId (ledger w) ≠ [] → localStorage w' = Some voteId)
       ∧ (byVoteID voteId (ledger w) = [] →
          ∀ d ds, byIP ip (ledger w) = d :: ds →
                  localStorage w' = Some (v_voteID d))
       ∧ (byVoteID voteId (ledger w) = [] → byIP ip (ledger w) = [] →
          localStorage w' = Some t))
  ∧ (∀ i ip p slot,
       pending w !! i = Some (AwaitCheckVoteByIP ip) →
       let w' := step w (Settle i (Resolved p slot)) in
       (∀ d ds, byIP ip (ledger w) = d :: ds →
                localStorage w' = Some (v_voteID d))
       ∧ (byIP ip (ledger w) = [] → localStorage w' = Some t)).
Proof.
  intros Hs Ht. pose proof (proj2 (str_truthy_nonempty t) Ht) as Htr.
  split; [|split; [|split]].
  - intros uuid. unfold generateVoteId. by rewrite Hs, Htr.
  - assert (Hip : ∀ ip d ds, byIP ip (ledger w) = d :: ds →
                             In d (ledger w) ∧ v_IP d = ip).
    { intros ip d ds E.
      assert (Hin : In d (byIP ip (ledger w))) by (rewrite E; by left).
      apply List.filter_In in Hin as [? Hq]. by apply String.eqb_eq in Hq. }
    intros e. destruct e as [|value| |o u n|i r|slot doc];
      try solve [left; gate_cases].
    simpl. destruct (pending w !! i) as [tk|] eqn:Hp; [|by left].
    destruct tk as [voteId ip| |ip|fs|doc]; try solve [left; gate_cases].
    + destruct r as [p slot|msg]; [|left; gate_cases].
      unfold resume, checkVoteStatus_resume. simpl.
      destruct (byVoteID voteId (ledger w)) as [|x xs] eqn:Hv.
      * destruct (byIP ip (ledger w)) as [|d ds] eqn:Hq; [by left|].
        right. exists i, p, slot. split; [done|]. left. exists voteId, ip.
        split; [done|]. right. exists d.
        destruct (Hip ip d ds Hq) as [Hd Hdip].
        split; [exact Hd|split; [exact Hdip|reflexivity]].
      * right. exists i, p, slot. split; [done|]. left. exists voteId, ip.
        split; [done|]. left. split; [by rewrite Hv|reflexivity].
    + destruct r as [p slot|msg]; [|left; gate_cases].
      unfold resume, checkVoteByIP_resume. simpl.
      destruct (byIP ip (ledger w)) as [|d ds] eqn:Hq; [by left|].
      right. exists i, p, slot. split; [done|]. right. exists ip, d.
      destruct (Hip ip d ds Hq) as [Hd Hdip].
      split; [done|]. split; [exact Hd|split; [exact Hdip|reflexivity]].
  - intros i voteId ip p slot Hp w'. unfold w'.
    rewrite (settle_lookup w i _ _ Hp).
    unfold resume, checkVoteStatus_resume. simpl.
    destruct (byVoteID voteId (ledger w)) as [|x xs];
      destruct (byIP ip (ledger w)) as [|d ds]; simpl;
      repeat split; try done; intros; by simplify_eq.
  - intros i ip p slot Hp w'. unfold w'.
    rewrite (settle_lookup w i _ _ Hp).
    unfold resume, checkVoteByIP_resume. simpl.
    destruct (byIP ip (ledger w)) as [|d ds]; simpl;
      repeat split; try done; intros; by simplify_eq.
Qed.

(** The amended C2 for a stored token "id-mine" on an address from which
    "id-other" has voted: the address check overwrites it. *)
Lemma C2_who_writes_the_persisted_token_witness :
  let theirs := mkVote (JStr "A") "203.0.113.7" "id-other" "2024-12-01T10:00:00.000Z" in
  let w := run (mount "3b241101-e2bb-4255-8caf-4136c566a962"
                  (initial (Some "id-mine") [theirs]))
             [Settle 2 (Resolved "203.0.113.7" 0)] in
  generateVoteId "9f1c2d3e-0a1b-4c2d-8e3f-a4b5c6d7e8f9" w = ("id-mine", w)
  ∧ localStorage (step w (Settle 2 (Resolved "" 0))) = Some "id-other".
Proof.
  intros theirs w.
  destruct (C2_who_writes_the_persisted_token w "id-mine" eq_refl
              ltac:(discriminate)) as (Hg & _ & _ & Hip).
  split; [exact (Hg _)|].
  exact (proj1 (Hip 2%nat "203.0.113.7" "" 0%nat eq_refl) theirs [] eq_refl).
Defined.

(** * The gate, claim by claim *)

(** C10: the verification flag is monotone.  [onCaptchaChange] sets it for a
    non-empty token and changes nothing for [null] or the empty string; the
    only event that turns the flag on is such a callback; and no sequence of
    events turns it off again. *)
Theorem C10_verification_is_monotone :
  (∀ (w : world) (token : string),
      token ≠ "" → captchaVerified (onCaptchaChange (Some token) w) = true)
  ∧ (∀ w : world,
        onCaptchaChange None w = w ∧ onCaptchaChange (Some "") w = w)
  ∧ (∀ (w : world) (e : event),
        captchaVerified w = false → captchaVerified (step w e) = true →
        ∃ token, e = CaptchaChange (Some token) ∧ token ≠ "")
  ∧ (∀ (w : world) (es : list event),
        captchaVerified w = true → captchaVerified (run w es) = true).
Proof.
  split; [|split; [|split]].
  - intros w token Ht. unfold onCaptchaChange.
    by rewrite (proj2 (str_truthy_nonempty token) Ht).
  - done.
  - intros w e Hf Ht.
    destruct e as [|[token|]| |o u n|i r|doc];
      [exfalso; gate_cases| |exfalso; gate_cases..].
    simpl in Ht.
    exists token. split; [done|]. apply str_truthy_nonempty.
    unfold onCaptchaChange in Ht. destruct (str_truthy token); congruence.
  - intros w es. apply run_captchaVerified.
Qed.

(** C10 on a session in which the challenge is solved and later expires. *)
Lemma C10_verification_is_monotone_witness :
  let w := run (initial None []) [Click; CaptchaChange (Some "03AFcWeA5")] in
  captchaVerified w = true
  ∧ captchaVerified (run w [CaptchaChange None; CloseCaptcha; Click]) = true.
Proof.
  intros w.
  assert (H : captchaVerified w = true).
  { apply (proj1 C10_verification_is_monotone). discriminate. }
  split; [exact H|].
  apply (proj2 (proj2 (proj2 C10_verification_is_monotone))). exact H.
Defined.

(** C1, as stated, fails.  The ledger already holds a vote of "id-1", but the
    initial check of this visit could not reach the store, so [hasVoted] is
    false.  After the challenge the vote intent does not consult the ledger:
    the append is issued, and when it lands the ledger holds two votes of
    "id-1".  The same happens when the first vote is recorded by a second tab
    of the same browser after the initial check has passed. *)
Lemma C1_append_without_ledger_recheck :
  let earlier := mkVote (JStr "A") "203.0.113.7" "id-1" "2024-12-01T10:00:00.000Z" in
  let mine := mkVote (JStr "B") "" "id-1" "2024-12-01T10:00:05.000Z" in
  let uuid := "3b241101-e2bb-4255-8caf-4136c566a962" in
  let intent := Submit (JStr "B") "9f1c2d3e-0a1b-4c2d-8e3f-a4b5c6d7e8f9"
                  "2024-12-01T10:00:05.000Z" in
  (* the store is unreachable during the initial check *)
  let a1 := run (mount uuid (initial (Some "id-1") [earlier]))
              [Settle 0 (Rejected "unavailable"); Click;
               CaptchaChange (Some "03AFcWeA5")] in
  let a2 := run a1 [intent] in
  let a3 := run a2 [Settle 2 (Resolved "" 1)] in
  (* a second tab votes between verification and intent *)
  let b1 := run (mount uuid (initial (Some "id-1") []))
              [Settle 0 (Resolved "" 0); Click; CaptchaChange (Some "03AFcWeA5");
               ForeignWrite 0 earlier] in
  let b2 := run b1 [intent] in
  let b3 := run b2 [Settle 2 (Resolved "" 1)] in
  (hasVoteFor "id-1" (userIP a1) (ledger a1) = true
   ∧ pending a2 !! 2%nat = Some (AwaitAddDoc mine)
   ∧ ledger a3 = [earlier; mine])
  ∧ (hasVoteFor "id-1" (userIP b1) (ledger b1) = true
     ∧ pending b2 !! 2%nat = Some (AwaitAddDoc mine)
     ∧ ledger b3 = [earlier; mine]).
Proof. vm_compute. repeat split. Qed.

(** C1, amended: on a vote intent [submitVote] re-checks the two flags of the
    component and nothing else.  With [hasVoted] false and [captchaVerified]
    true the append is issued; otherwise none is; and what is issued depends
    on the flags, the persisted token, the address and the suspended calls,
    not on the contents of the ledger. *)
Theorem C1_submitVote_checks_the_flags_only
    (o : jsval) (uuid now : string) (w : world) :
  (hasVoted w = false → captchaVerified w = true →
   pending (submitVote o uuid now w)
   = pending w
     ++ [AwaitAddDoc (mkVote o (userIP w) (fst (generateVoteId uuid w)) now)])
  ∧ (hasVoted w = true ∨ captchaVerified w = false →
     pending (submitVote o uuid now w) = pending w
     ∧ ledger (submitVote o uuid now w) = ledger w)
  ∧ (∀ w' : world,
        hasVoted w' = hasVoted w → captchaVerified w' = captchaVerified w →
        localStorage w' = localStorage w → userIP w' = userIP w →
        pending w' = pending w →
        pending (submitVote o uuid now w') = pending (submitVote o uuid now w)).
Proof.
  split; [|split].
  - intros Hv Hc. gate_cases.
  - intros [H|H]; gate_cases.
  - intros w' Hv Hc Hs Hi Hp. unfold submitVote, generateVoteId.
    rewrite Hv, Hc, Hs, Hi. gate_cases.
Qed.

(** The amended C1 for a verified visitor. *)
Lemma C1_submitVote_checks_the_flags_only_witness :
  let w := run (initial (Some "id-1") []) [Click; CaptchaChange (Some "03AFcWeA5")] in
  pending (submitVote (JStr "B") "9f1c2d3e-0a1b-4c2d-8e3f-a4b5c6d7e8f9" "2024-12-01T10:00:05.000Z" w)
  = [AwaitAddDoc (mkVote (JStr "B") "" "id-1" "2024-12-01T10:00:05.000Z")].
Proof.
  intros w.
  apply (proj1 (C1_submitVote_checks_the_flags_only (JStr "B")
                  "9f1c2d3e-0a1b-4c2d-8e3f-a4b5c6d7e8f9"
                  "2024-12-01T10:00:05.000Z" w)); reflexivity.
Defined.


(** A submission is only ever under way for a verified visitor. *)
Lemma step_submits_verified (w : world) (e : event) :
  submits_verified w → submits_verified (step w e).
Proof.
  intros H. destruct (captchaVerified w) eqn:Hc;
    [left; by apply step_captchaVerified|].
  destruct H as [H|Hq]; [congruence|].
  destruct e as [|value| |o u n|i r|slot doc];
    try solve [right; gate_cases].
  right. simpl. destruct (pending w !! i) as [t|] eqn:Hp; [|done].
  pose proof (Forall_lookup_1 _ _ _ _ Hq Hp) as Ht.
  assert (Hd : Forall (fun t => is_addDoc t = false) (delete i (pending w)))
    by (by apply Forall_delete).
  destruct t as [voteId ip| |ip|fs|doc0]; [| | | |done];
    try solve [gate_cases];
    gate_cases; (apply Forall_app; split; [done|by repeat constructor]).
Qed.

Lemma run_submits_verified (es : list event) :
  ∀ w, submits_verified w → submits_verified (run w es).
Proof.
  induction es as [|e es IH]; intros w H; [done|].
  apply (IH (step w e)). by apply step_submits_verified.
Qed.

Lemma mount_submits_verified
    (uuid : string) (stored : option string) (docs : list Vote) :
  submits_verified (mount uuid (initial stored docs)).
Proof.
  right. unfold mount, checkVoteStatus, generateVoteId. simpl.
  destruct stored as [s|]; [destruct (str_truthy s)|]; simpl;
    by repeat constructor.
Qed.

(** C4, as stated, fails.  A verified visitor submits before the address
    lookup has answered.  While that append is in flight the lookup answers
    and [checkVoteByIP] finds a vote from the visitor's address, which sets
    [hasVoted].  The append then fails: the gate is not in the verified state
    with [hasVoted] false, and the retry is turned away without an append. *)
Lemma C4_failed_append_after_a_block :
  let theirs := mkVote (JStr "A") "203.0.113.7" "id-other" "2024-12-01T10:00:00.000Z" in
  let mine := mkVote (JStr "B") "" "id-1" "2024-12-01T10:00:05.000Z" in
  let w1 := run (mount "3b241101-e2bb-4255-8caf-4136c566a962"
                   (initial (Some "id-1") [theirs]))
              [Settle 0 (Resolved "" 0); Click; CaptchaChange (Some "03AFcWeA5");
               Submit (JStr "B") "9f1c2d3e-0a1b-4c2d-8e3f-a4b5c6d7e8f9"
                 "2024-12-01T10:00:05.000Z"] in
  let w2 := run w1 [Settle 1 (Resolved "203.0.113.7" 0); Settle 2 (Resolved "" 0)] in
  let w3 := run w2 [Settle 1 (Rejected "unavailable")] in
  let w4 := run w3 [Submit (JStr "B") "9f1c2d3e-0a1b-4c2d-8e3f-a4b5c6d7e8f9"
                      "2024-12-01T10:00:09.000Z"] in
  (hasVoted w1 = false ∧ captchaVerified w1 = true
   ∧ pending w1 !! 2%nat = Some (AwaitAddDoc mine))
  ∧ pending w2 !! 1%nat = Some (AwaitAddDoc mine)
  ∧ hasVoted w3 = true
  ∧ appends_in_flight w4 = 0%nat
  ∧ out w4 = out w3 ++ [Toast AlreadyVoted]
  ∧ ledger w4 = [theirs].
Proof. vm_compute. repeat split. Qed.

(** C4, amended: a failed append changes no flag of the gate.  [hasVoted] and
    [captchaVerified] are what they were when the append failed, the
    challenge is not reopened, the ledger and the persisted token are
    unchanged, and the error toast is shown; and [captchaVerified] is true
    whenever an append is in flight, in every run from a page load.  If
    [hasVoted] was still false, the gate is back in the verified state: a
    retry (with an option that is not undefined, which the store refuses)
    passes both guards without a warning and without opening the challenge,
    issues a new append, and when that one resolves the vote is in the
    ledger and [hasVoted] is set.  If a duplicate check had set [hasVoted]
    while the append was in flight, the retry is turned away with the
    "already voted" toast. *)
Theorem C4_failed_append_changes_no_flag
    (w : world) (i : nat) (doc : Vote) (message : string) :
  pending w !! i = Some (AwaitAddDoc doc) →
  let w1 := step w (Settle i (Rejected message)) in
  hasVoted w1 = hasVoted w
  ∧ captchaVerified w1 = captchaVerified w
  ∧ showCaptcha w1 = showCaptcha w
  ∧ ledger w1 = ledger w
  ∧ localStorage w1 = localStorage w
  ∧ pending w1 = delete i (pending w)
  ∧ out w1 = out w ++ [ConsoleError "Error submitting vote:";
                       LogEvent (vote_error message); Toast SubmitError]
  ∧ (submits_verified w → captchaVerified w1 = true)
  ∧ (∀ uuid stored docs es,
        submits_verified (run (mount uuid (initial stored docs)) es))
  ∧ (hasVoted w = false → captchaVerified w = true →
     ∀ (o : jsval) (uuid now payload : string) (slot : nat),
       o ≠ JUndefined →
       let w2 := step w1 (Submit o uuid now) in
       let w3 := step w2 (Settle (length (pending w1)) (Resolved payload slot)) in
       showCaptcha w2 = showCaptcha w1
       ∧ out w2 = out w1
       ∧ ∃ retry,
           v_option retry = o
           ∧ pending w2 = pending w1 ++ [AwaitAddDoc retry]
           ∧ hasVoted w3 = true
           ∧ ledger w3
             = take slot (ledger w) ++ retry :: drop slot (ledger w))
  ∧ (hasVoted w = true →
     ∀ (o : jsval) (uuid now : string),
       step w1 (Submit o uuid now) = emit (Toast AlreadyVoted) w1
       ∧ out (step w1 (Submit o uuid now)) = out w1 ++ [Toast AlreadyVoted]
       ∧ pending (step w1 (Submit o uuid now)) = pending w1).
Proof.
  intros Hp w1.
  assert (E1 : w1 = submitVote_resume doc (Rejected message)
                      (set_pending (delete i (pending w)) w)).
  { unfold w1. by rewrite (settle_lookup w i _ _ Hp). }
  assert (Hv1 : hasVoted w1 = hasVoted w) by (by rewrite E1).
  assert (Hc1 : captchaVerified w1 = captchaVerified w) by (by rewrite E1).
  assert (Hl1 : ledger w1 = ledger w) by (by rewrite E1).
  split; [done|]. split; [done|]. split; [by rewrite E1|].
  split; [done|]. split; [by rewrite E1|]. split; [by rewrite E1|]. split.
  { rewrite E1. simpl. by rewrite <- !app_assoc. }
  split.
  { intros [H|H]; [by rewrite Hc1|].
    pose proof (Forall_lookup_1 _ _ _ _ H Hp). done. }
  split.
  { intros uuid stored docs es. apply run_submits_verified.
    apply mount_submits_verified. }
  split.
  - intros Hv Hc o uuid now payload slot _ w2 w3.
    rewrite <- Hv1 in Hv. rewrite <- Hc1 in Hc.
    set (retry := mkVote o (userIP w1) (fst (generateVoteId uuid w1)) now).
    assert (Hp2 : pending w2 = pending w1 ++ [AwaitAddDoc retry]).
    { unfold w2, retry. simpl. revert Hv Hc. generalize w1. clear.
      intros w Hv Hc. gate_cases. }
    assert (Hl2 : ledger w2 = ledger w1).
    { unfold w2. simpl. revert Hv Hc. generalize w1. clear.
      intros w Hv Hc. gate_cases. }
    split. { unfold w2. simpl. revert Hv Hc. generalize w1. clear.
             intros w Hv Hc. gate_cases. }
    split. { unfold w2. simpl. revert Hv Hc. generalize w1. clear.
             intros w Hv Hc. gate_cases. }
    exists retry. split; [done|]. split; [done|].
    assert (Hk : pending w2 !! length (pending w1) = Some (AwaitAddDoc retry)).
    { rewrite Hp2. by apply list_lookup_middle. }
    unfold w3. rewrite (settle_lookup w2 _ _ _ Hk). simpl.
    split; [done|]. by rewrite Hl2, Hl1.
  - intros Hv o uuid now. rewrite <- Hv1 in Hv. simpl. unfold submitVote.
    by rewrite Hv.
Qed.

(** The amended C4 for a verified visitor whose first [addDoc] rejects and
    who then retries. *)
Lemma C4_failed_append_changes_no_flag_witness :
  let w := run (mount "3b241101-e2bb-4255-8caf-4136c566a962"
                  (initial (Some "id-1") []))
             [Settle 0 (Resolved "" 0); Click; CaptchaChange (Some "03AFcWeA5");
              Submit (JStr "A") "9f1c2d3e-0a1b-4c2d-8e3f-a4b5c6d7e8f9"
                "2024-12-01T10:00:05.000Z"] in
  let w1 := step w (Settle 2 (Rejected "unavailable")) in
  let w2 := step w1 (Submit (JStr "A") "9f1c2d3e-0a1b-4c2d-8e3f-a4b5c6d7e8f9"
                       "2024-12-01T10:00:09.000Z") in
  let w3 := step w2 (Settle (length (pending w1)) (Resolved "" 0)) in
  hasVoted w1 = hasVoted w ∧ captchaVerified w1 = true
  ∧ showCaptcha w2 = showCaptcha w1
  ∧ ∃ retry, v_option retry = JStr "A"
             ∧ pending w2 = pending w1 ++ [AwaitAddDoc retry]
             ∧ hasVoted w3 = true
             ∧ ledger w3 = take 0 (ledger w) ++ retry :: drop 0 (ledger w).
Proof.
  intros w w1 w2 w3.
  destruct (C4_failed_append_changes_no_flag w 2
              (mkVote (JStr "A") "" "id-1" "2024-12-01T10:00:05.000Z")
              "unavailable" eq_refl)
    as (H1 & _ & _ & _ & _ & _ & _ & H2 & H3 & H4 & _).
  split; [exact H1|]. split.
  { apply H2. apply (H3 "3b241101-e2bb-4255-8caf-4136c566a962" (Some "id-1") []
                       [Settle 0 (Resolved "" 0); Click;
                        CaptchaChange (Some "03AFcWeA5");
                        Submit (JStr "A") "9f1c2d3e-0a1b-4c2d-8e3f-a4b5c6d7e8f9"
                          "2024-12-01T10:00:05.000Z"]). }
  destruct (H4 eq_refl eq_refl (JStr "A") "9f1c2d3e-0a1b-4c2d-8e3f-a4b5c6d7e8f9"
              "2024-12-01T10:00:09.000Z" "" 0%nat ltac:(discriminate))
    as (Hs & _ & Hr).
  split; [exact Hs|exact Hr].
Defined.

(** C6, as stated, fails.  A verified visitor calls [submitVote] twice before
    the first [addDoc] settles: the second call is not ignored, two appends
    are in flight for the same identity, and when both resolve the ledger
    holds two votes of "id-1". *)
Lemma C6_reentrant_submission_appends_twice :
  let first := mkVote (JStr "A") "" "id-1" "2024-12-01T10:00:05.000Z" in
  let second := mkVote (JStr "A") "" "id-1" "2024-12-01T10:00:06.000Z" in
  let w0 := mount "3b241101-e2bb-4255-8caf-4136c566a962" (initial (Some "id-1") []) in
  let w1 := run w0 [Settle 0 (Resolved "" 0); Click; CaptchaChange (Some "03AFcWeA5");
                    Submit (JStr "A") "9f1c2d3e-0a1b-4c2d-8e3f-a4b5c6d7e8f9"
                      "2024-12-01T10:00:05.000Z"] in
  let w2 := run w1 [Submit (JStr "A") "9f1c2d3e-0a1b-4c2d-8e3f-a4b5c6d7e8f9"
                      "2024-12-01T10:00:06.000Z"] in
  let w3 := run w2 [Settle 2 (Resolved "" 0); Settle 2 (Resolved "" 1)] in
  appends_in_flight w1 = 1%nat
  ∧ appends_in_flight w2 = 2%nat
  ∧ pending w2 !! 2%nat = Some (AwaitAddDoc first)
  ∧ pending w2 !! 3%nat = Some (AwaitAddDoc second)
  ∧ ledger w3 = [first; second].
Proof. vm_compute. repeat split. Qed.

Lemma appends_in_flight_submit (w : world) (o : jsval) (uuid now : string) :
  hasVoted w = false → captchaVerified w = true →
  appends_in_flight (step w (Submit o uuid now)) = S (appends_in_flight w)
  ∧ hasVoted (step w (Submit o uuid now)) = false
  ∧ captchaVerified (step w (Submit o uuid now)) = true.
Proof.
  intros Hv Hc. unfold appends_in_flight.
  gate_cases; rewrite List.filter_app, length_app; simpl; split; (lia || done).
Qed.

(** C6, amended: the component keeps no record of a submission in flight.
    A call of [submitVote] made while [hasVoted] is false and
    [captchaVerified] is true issues one more append, whether or not others
    are outstanding, so [n] such calls leave [n] more appends in flight.
    Calls are turned away, with no append, once [hasVoted] is set, which
    happens when an append resolves. *)
Theorem C6_every_verified_call_issues_an_append :
  (∀ (w : world) (calls : list (jsval * string * string)),
      hasVoted w = false → captchaVerified w = true →
      appends_in_flight
        (run w (map (fun '(o, uuid, now) => Submit o uuid now) calls))
      = (appends_in_flight w + length calls)%nat)
  ∧ (∀ (w : world) (i : nat) (doc : Vote) (payload : string) (slot : nat),
        pending w !! i = Some (AwaitAddDoc doc) →
        hasVoted (step w (Settle i (Resolved payload slot))) = true)
  ∧ (∀ (w : world) (o : jsval) (uuid now : string),
        hasVoted w = true →
        step w (Submit o uuid now) = emit (Toast AlreadyVoted) w
        ∧ appends_in_flight (step w (Submit o uuid now)) = appends_in_flight w).
Proof.
  split; [|split].
  - intros w calls. revert w.
    induction calls as [|[[o uuid] now] calls IH]; intros w Hv Hc.
    + simpl. lia.
    + destruct (appends_in_flight_submit w o uuid now Hv Hc) as (Hn & Hv' & Hc').
      change (run w (map _ (_ :: calls)))
        with (run (step w (Submit o uuid now))
                (map (fun '(o, uuid, now) => Submit o uuid now) calls)).
      rewrite (IH _ Hv' Hc'), Hn. simpl. lia.
  - intros w i doc payload slot Hp. by rewrite (settle_lookup w i _ _ Hp).
  - intros w o uuid now Hv. simpl. unfold submitVote. by rewrite Hv.
Qed.

(** The amended C6 for three calls in a row. *)
Lemma C6_every_verified_call_issues_an_append_witness :
  let w := run (initial (Some "id-1") []) [Click; CaptchaChange (Some "03AFcWeA5")] in
  appends_in_flight
    (run w [Submit (JStr "A") "u" "2024-12-01T10:00:05.000Z";
            Submit (JStr "A") "u" "2024-12-01T10:00:06.000Z";
            Submit (JStr "B") "u" "2024-12-01T10:00:07.000Z"])
  = 3%nat.
Proof.
  intros w.
  apply (proj1 C6_every_verified_call_issues_an_append w
           [(JStr "A", "u", "2024-12-01T10:00:05.000Z");
            (JStr "A", "u", "2024-12-01T10:00:06.000Z");
            (JStr "B", "u", "2024-12-01T10:00:07.000Z")]); reflexivity.
Defined.

(** C7: after an append of a vote with [voteID = t] has succeeded, the ledger
    answers "has voted" for [t] and any address, and [hasVoted] is set, after
    every further sequence of events.  Every later vote intent, be it the
    click handler or [submitVote], shows the "already voted" toast and does
    nothing else: the toast is the one thing added to what the component has
    emitted, the challenge is not opened, no append is issued, and the state,
    the persisted token and the ledger are as they were. *)
Theorem C7_recorded_vote_blocks_every_later_intent
    (w : world) (i : nat) (doc : Vote) (payload : string) (slot : nat)
    (es : list event) :
  pending w !! i = Some (AwaitAddDoc doc) →
  let w1 := step w (Settle i (Resolved payload slot)) in
  let w2 := run w1 es in
  In doc (ledger w1)
  ∧ In doc (ledger w2)
  ∧ (∀ ip, hasVoteFor (v_voteID doc) ip (ledger w2) = true)
  ∧ hasVoted w2 = true
  ∧ (∀ w3, w3 = step w2 Click ∨ (∃ o uuid now, w3 = step w2 (Submit o uuid now)) →
       out w3 = out w2 ++ [Toast AlreadyVoted]
       ∧ toasts w3 = toasts w2 ++ [Toast AlreadyVoted]
       ∧ hasVoted w3 = hasVoted w2
       ∧ captchaVerified w3 = captchaVerified w2
       ∧ showCaptcha w3 = showCaptcha w2
       ∧ loading w3 = loading w2
       ∧ userIP w3 = userIP w2
       ∧ voteStats w3 = voteStats w2
       ∧ localStorage w3 = localStorage w2
       ∧ ledger w3 = ledger w2
       ∧ pending w3 = pending w2).
Proof.
  intros Hp w1 w2.
  assert (E1 : w1 = submitVote_resume doc (Resolved payload slot)
                      (set_pending (delete i (pending w)) w)).
  { unfold w1. by rewrite (settle_lookup w i _ _ Hp). }
  assert (Hl1 : In doc (ledger w1)).
  { rewrite E1. simpl. apply In_placed. by left. }
  assert (Hl2 : In doc (ledger w2)) by (by apply run_ledger_In).
  assert (Hv1 : hasVoted w1 = true) by (by rewrite E1).
  assert (Hv2 : hasVoted w2 = true) by (by apply run_hasVoted).
  split; [done|]. split; [done|]. split.
  { intros ip. by apply hasVoteFor_own. }
  split; [done|].
  intros w3 Hw3.
  assert (E3 : w3 = emit (Toast AlreadyVoted) w2).
  { destruct Hw3 as [->|(o & uuid & now & ->)]; simpl.
    - unfold handleVoteClick. by rewrite Hv2.
    - unfold submitVote. by rewrite Hv2. }
  rewrite E3. unfold toasts. simpl. rewrite List.filter_app. simpl.
  repeat split.
Qed.

(** C7 for a visitor whose vote for A was recorded. *)
Lemma C7_recorded_vote_blocks_every_later_intent_witness :
  let w := run (initial (Some "id-1") [])
             [Click; CaptchaChange (Some "03AFcWeA5");
              Submit (JStr "A") "9f1c2d3e-0a1b-4c2d-8e3f-a4b5c6d7e8f9"
                "2024-12-01T10:00:05.000Z"] in
  let w2 := run (step w (Settle 0 (Resolved "" 0)))
              [Settle 0 (Resolved "" 0); Click; CaptchaChange None] in
  hasVoteFor "id-1" "198.51.100.4" (ledger w2) = true
  ∧ out (step w2 (Submit (JStr "B") "u" "2024-12-01T10:01:00.000Z"))
    = out w2 ++ [Toast AlreadyVoted]
  ∧ showCaptcha (step w2 (Submit (JStr "B") "u" "2024-12-01T10:01:00.000Z"))
    = showCaptcha w2.
Proof.
  intros w w2.
  destruct (C7_recorded_vote_blocks_every_later_intent w 0
              (mkVote (JStr "A") "" "id-1" "2024-12-01T10:00:05.000Z") "" 0
              [Settle 0 (Resolved "" 0); Click; CaptchaChange None] eq_refl)
    as (_ & _ & Hq & _ & Hs).
  split; [exact (Hq "198.51.100.4")|].
  destruct (Hs (step w2 (Submit (JStr "B") "u" "2024-12-01T10:01:00.000Z")))
    as (Ho & _ & _ & _ & Hc & _).
  { right. by exists (JStr "B"), "u", "2024-12-01T10:01:00.000Z". }
  split; [exact Ho|exact Hc].
Defined.

(** C5, as stated, fails.  A new visitor opens the poll from an address from
    which "id-other" has voted.  The effect issues the two queries of
    [checkVoteStatus] while the address lookup has not answered; when they
    resolve the loading state is cleared with [hasVoted] false, the lookup
    still outstanding.  Only when the lookup and then [checkVoteByIP]
    complete is the visitor blocked. *)
Lemma C5_gate_decided_before_the_address_is_known :
  let theirs := mkVote (JStr "A") "203.0.113.7" "id-other" "2024-12-01T10:00:00.000Z" in
  let uuid := "3b241101-e2bb-4255-8caf-4136c566a962" in
  let w0 := mount uuid (initial None [theirs]) in
  let w1 := run w0 [Settle 0 (Resolved "" 0)] in
  let w2 := run w1 [Settle 1 (Resolved "203.0.113.7" 0); Settle 1 (Resolved "" 0)] in
  pending w0 = [AwaitCheckVoteStatus uuid ""; AwaitFetchVoteStats false; AwaitFetchIP]
  ∧ loading w0 = true
  ∧ loading w1 = false ∧ hasVoted w1 = false ∧ In AwaitFetchIP (pending w1)
  ∧ hasVoted w2 = true.
Proof. vm_compute. repeat split; auto. Qed.

(** C5, amended: the effect run on mount resolves the identity and at once
    issues the two queries of [checkVoteStatus], then starts the address
    lookup, without waiting for it.  [checkVoteStatus] waits for both of its
    queries: the loading state is cleared exactly when they settle, and
    [hasVoted] is set then if either query found a record.  The address that
    the lookup returns is checked by a path of its own: a non-empty address
    starts [checkVoteByIP], which sets [hasVoted] when the ledger has a vote
    from that address, and neither of the two touches the loading state. *)
Theorem C5_initial_check_and_address_check_are_separate :
  (∀ (uuid : string) (w : world),
      loading (mount uuid w) = loading w
      ∧ ∃ ip, pending (mount uuid w)
              = pending w ++ [AwaitCheckVoteStatus (fst (generateVoteId uuid w)) ip;
                              AwaitFetchVoteStats false; AwaitFetchIP])
  ∧ (∀ (w : world) (i : nat) (voteId ip : string) (r : outcome),
        pending w !! i = Some (AwaitCheckVoteStatus voteId ip) →
        loading (step w (Settle i r)) = false
        ∧ hasVoted (step w (Settle i r))
          = hasVoted w
            || match r with
               | Resolved _ _ => hasVoteFor voteId ip (ledger w)
               | Rejected _ => false
               end)
  ∧ (∀ (w : world) (e : event),
        loading w = true → loading (step w e) = false →
        ∃ i r voteId ip,
          e = Settle i r ∧ pending w !! i = Some (AwaitCheckVoteStatus voteId ip))
  ∧ (∀ (w : world) (i : nat) (ip : string) (slot : nat),
        pending w !! i = Some AwaitFetchIP → ip ≠ "" →
        pending (step w (Settle i (Resolved ip slot)))
        = delete i (pending w) ++ [AwaitCheckVoteByIP ip]
        ∧ userIP (step w (Settle i (Resolved ip slot))) = ip
        ∧ loading (step w (Settle i (Resolved ip slot))) = loading w)
  ∧ (∀ (w : world) (i : nat) (ip payload : string) (slot : nat),
        pending w !! i = Some (AwaitCheckVoteByIP ip) →
        hasVoted (step w (Settle i (Resolved payload slot)))
        = hasVoted w || negb (bool_decide (byIP ip (ledger w) = []))
        ∧ loading (step w (Settle i (Resolved payload slot))) = loading w).
Proof.
  split; [|split; [|split; [|split]]].
  - intros uuid w. split; [gate_cases|].
    exists (userIP w). gate_cases; by rewrite <- !app_assoc.
  - intros w i voteId ip r Hp. rewrite (settle_lookup w i _ _ Hp).
    split; [done|]. unfold resume, checkVoteStatus_resume, hasVoteFor.
    destruct r as [p slot|msg]; simpl; [|by rewrite orb_false_r].
    destruct (byVoteID voteId (ledger w)) as [|x xs] eqn:Hx;
      destruct (byIP ip (ledger w)) as [|y ys] eqn:Hy; simpl;
      rewrite ?Hx, ?Hy; simpl; by rewrite ?orb_false_r, ?orb_true_r.
  - intros w e Ht Hf.
    destruct e as [|value| |o u n|i r|slot doc];
      [exfalso; gate_cases..| |exfalso; gate_cases].
    simpl in Hf. destruct (pending w !! i) as [t|] eqn:Hp; [|congruence].
    destruct t as [voteId ip| |ip|fs|doc];
      [by exists i, r, voteId, ip|exfalso; gate_cases..].
  - intros w i ip slot Hp Hip. rewrite (settle_lookup w i _ _ Hp).
    unfold resume, fetchIP_resume, checkVoteByIP.
    by rewrite (proj2 (str_truthy_nonempty ip) Hip).
  - intros w i ip payload slot Hp. rewrite (settle_lookup w i _ _ Hp).
    unfold resume, checkVoteByIP_resume.
    destruct (byIP ip (ledger w)) as [|y ys] eqn:Hy; simpl;
      rewrite ?Hy; simpl; by rewrite ?orb_false_r, ?orb_true_r.
Qed.

(** The amended C5 on the first visit of a new visitor. *)
Lemma C5_initial_check_and_address_check_are_separate_witness :
  let w := mount "3b241101-e2bb-4255-8caf-4136c566a962" (initial None []) in
  loading (step w (Settle 0 (Resolved "" 0))) = false
  ∧ pending (step w (Settle 2 (Resolved "203.0.113.7" 0)))
    = [AwaitCheckVoteStatus "3b241101-e2bb-4255-8caf-4136c566a962" "";
       AwaitFetchVoteStats false; AwaitCheckVoteByIP "203.0.113.7"].
Proof.
  intros w.
  destruct C5_initial_check_and_address_check_are_separate
    as (_ & Hcheck & _ & Hip & _).
  split.
  - exact (proj1 (Hcheck w 0%nat "3b241101-e2bb-4255-8caf-4136c566a962" ""
                    (Resolved "" 0) eq_refl)).
  - exact (proj1 (Hip w 2%nat "203.0.113.7" 0%nat eq_refl ltac:(discriminate))).
Defined.

(** * Further properties of the tally *)

(** X1: when the tally completes, the count of a key that is not an inherited
    property name is exact, whatever else the collection holds: entries with
    a falsy [option], with other keys, with numbers, arrays or maps as
    option, or with keys that collide with [Object.prototype] do not disturb
    it.  In particular A, B and C then carry the number of votes cast for
    them.  The tally fails to complete exactly when some entry's [option] is
    an array or a map whose conversion to a property key throws. *)
Theorem X1_counts_of_own_keys_are_exact (votes : list Vote) :
  (computeTally votes = None ↔ ∃ v, In v votes ∧ throws v = true)
  ∧ ∀ stats k,
      computeTally votes = Some stats → is_proto_name k = false →
      stats !! k
      = (if recognized k || (0 <? count_for k votes)
         then Some (Num (count_for k votes)) else None)
      ∧ (recognized k = true → stats !! k = Some (Num (count_for k votes))).
Proof.
  split.
  - unfold computeTally. rewrite forEach_counted.
    destruct (existsb throws votes) eqn:E.
    + split; [intros _|done]. apply existsb_exists in E. done.
    + split; [done|]. intros Hex. apply existsb_exists in Hex. congruence.
  - intros stats k Hs Hk.
    rewrite (computeTally_own_key votes stats k Hs Hk), stats0_lookup.
    pose proof (count_for_nonneg k votes) as Hc.
    destruct (recognized k); simpl; [done|]. split; [|done].
    destruct (Z.eqb_spec (count_for k votes) 0),
      (Z.ltb_spec 0 (count_for k votes)); try lia; done.
Qed.

(** X1 on a ledger with a vote for A among malformed entries. *)
Lemma X1_counts_of_own_keys_are_exact_witness :
  let votes := [mkVote (JStr "toString") "203.0.113.7" "id-1" "t1";
                mkVote (JStr "A") "203.0.113.8" "id-2" "t2";
                mkVote (JStr "__proto__") "203.0.113.9" "id-3" "t3";
                mkVote (JMap ["name"]) "203.0.113.10" "id-4" "t4";
                mkVote (JNum "NaN") "203.0.113.11" "id-5" "t5"] in
  ∃ stats, computeTally votes = Some stats ∧ stats !! "A" = Some (Num 1).
Proof.
  intros votes. destruct (computeTally votes) as [stats|] eqn:E.
  - exists stats. split; [reflexivity|].
    exact (proj2 (proj2 (X1_counts_of_own_keys_are_exact votes) stats "A"
                    E eq_refl) eq_refl).
  - vm_compute in E. discriminate.
Defined.

(** X2: votes whose [option] names a property inherited from
    [Object.prototype], in a tally that completes.  The key [__proto__] is
    never counted.  For any other inherited name the first vote leaves NaN,
    and each later one counts from there as if the first had not been cast:
    [n + 2] votes give [n + 1].  When such a key was voted exactly once the
    grand total is NaN. *)
Theorem X2_votes_for_inherited_names
    (votes : list Vote) (stats : gmap string jsnum) (k : string) :
  computeTally votes = Some stats → is_proto_name k = true →
  stats !! k
  = (if String.eqb k "__proto__" then None
     else match length (List.filter (hits k) votes) with
          | O => None
          | S O => Some NaN
          | S (S n) => Some (Num (Z.of_nat n + 1))
          end)
  ∧ (String.eqb k "__proto__" = false →
     length (List.filter (hits k) votes) = 1%nat →
     totalVotes stats = NaN).
Proof.
  intros Hs Hk.
  assert (H0 : stats0 !! k = None).
  { rewrite stats0_lookup. destruct (recognized k) eqn:Hr; [|done].
    apply recognized_own in Hr. congruence. }
  assert (E : stats !! k
              = Nat.iter (length (List.filter (hits k) votes)) (next k) None).
  { revert Hs. unfold computeTally. rewrite forEach_counted.
    destruct (existsb throws votes); [done|]. intros [= <-].
    by rewrite fold_counted_iter, H0. }
  assert (E1 : String.eqb k "__proto__" = false →
               Nat.iter 1 (next k) None = Some NaN).
  { intros Hp. rewrite Nat.iter_succ. simpl. unfold next. by rewrite Hp, Hk. }
  split.
  - rewrite E. destruct (String.eqb k "__proto__") eqn:Hp.
    + generalize (length (List.filter (hits k) votes)). intros n.
      induction n as [|n IH]; [done|]. rewrite Nat.iter_succ, IH.
      unfold next. by rewrite Hp.
    + destruct (length (List.filter (hits k) votes)) as [|[|n]].
      * done.
      * by apply E1.
      * by apply iter_next_inherited.
  - intros Hp H1. apply (totalVotes_NaN_found _ k).
    rewrite E, H1. by apply E1.
Qed.

(** X2 on three votes for [toString], and on one. *)
Lemma X2_votes_for_inherited_names_witness :
  let t := mkVote (JStr "toString") "203.0.113.7" "id-1" "t1" in
  let a := mkVote (JStr "A") "203.0.113.8" "id-2" "t2" in
  (∃ stats, computeTally [t; a; t; t] = Some stats
            ∧ stats !! "toString" = Some (Num 2))
  ∧ (∃ stats, computeTally [a; t] = Some stats ∧ totalVotes stats = NaN).
Proof.
  intros t a. split.
  - destruct (computeTally [t; a; t; t]) as [stats|] eqn:E;
      [|vm_compute in E; discriminate].
    exists stats. split; [reflexivity|].
    exact (proj1 (X2_votes_for_inherited_names [t; a; t; t] stats "toString"
                    E eq_refl)).
  - destruct (computeTally [a; t]) as [stats|] eqn:E;
      [|vm_compute in E; discriminate].
    exists stats. split; [reflexivity|].
    exact (proj2 (X2_votes_for_inherited_names [a; t] stats "toString"
                    E eq_refl) eq_refl eq_refl).
Defined.

(** X3: the grand total is NaN exactly when some count is NaN.  When all
    counts are numbers that are not negative, so is the total, and no count
    exceeds it. *)
Theorem X3_total_and_counts (m : gmap string jsnum) :
  (totalVotes m = NaN ↔ ∃ k, m !! k = Some NaN)
  ∧ ((∀ k x, m !! k = Some x → ∃ z, x = Num z ∧ 0 ≤ z) →
     ∃ t, totalVotes m = Num t ∧ 0 ≤ t
          ∧ ∀ k z, m !! k = Some (Num z) → z ≤ t).
Proof.
  split.
  - split; [|intros [k Hk]; by apply (totalVotes_NaN_found m k)].
    induction m as [|i x m Hi IH] using map_ind.
    + intros H. vm_compute in H. discriminate.
    + rewrite (totalVotes_insert_fresh m i x Hi). intros H.
      destruct x as [z|].
      * destruct (totalVotes m) eqn:Ht; [discriminate|].
        destruct (IH eq_refl) as [k Hk]. exists k.
        rewrite lookup_insert_ne; [done|]. intros ->. congruence.
      * exists i. by rewrite lookup_insert_eq.
  - induction m as [|i x m Hi IH] using map_ind.
    + intros _. exists 0. split; [by vm_compute|]. split; [lia|].
      intros k z Hk. by rewrite lookup_empty in Hk.
    + intros Hall. rewrite (totalVotes_insert_fresh m i x Hi).
      destruct (Hall i x (lookup_insert_eq m i x)) as (zi & -> & Hzi).
      destruct IH as (t & Ht & Ht0 & Hle).
      { intros k y Hk. apply (Hall k y).
        rewrite lookup_insert_ne; [done|]. intros ->. congruence. }
      exists (t + zi). rewrite Ht. split; [done|]. split; [lia|].
      intros k z Hk. destruct (decide (i = k)) as [->|Hne].
      * rewrite lookup_insert_eq in Hk. injection Hk as <-. lia.
      * rewrite lookup_insert_ne in Hk by done.
        pose proof (Hle k z Hk). lia.
Qed.

(** X3 on the tally of two votes. *)
Lemma X3_total_and_counts_witness :
  ∃ t, totalVotes (<["A" := Num 1]> (<["D" := Num 1]> stats0)) = Num t ∧ 1 ≤ t.
Proof.
  destruct (proj2 (X3_total_and_counts
              (<["A" := Num 1]> (<["D" := Num 1]> stats0))))
    as (t & Ht & _ & Hle).
  - intros k x Hk.
    destruct (decide (k = "A")) as [->|?];
      [vm_compute in Hk; injection Hk as <-; exists 1; split; [done|lia]|].
    destruct (decide (k = "D")) as [->|?];
      [vm_compute in Hk; injection Hk as <-; exists 1; split; [done|lia]|].
    rewrite !lookup_insert_ne, stats0_lookup in Hk by done.
    destruct (recognized k); [|done]. injection Hk as <-.
    exists 0. split; [done|lia].
  - exists t. split; [exact Ht|]. apply (Hle "A" 1). by vm_compute.
Defined.

(** * Further properties of the ledger and the gate *)

(** X4: the test of [checkVoteStatus] is a two-clause "or": it holds exactly
    when some document of the collection carries the queried identity or the
    queried address; on an empty collection it fails. *)
Theorem X4_hasVoteFor_is_an_or_of_two_matches
    (voteId ip : string) (docs : list Vote) :
  (hasVoteFor voteId ip docs = true
   ↔ ∃ d, In d docs ∧ (v_voteID d = voteId ∨ v_IP d = ip))
  ∧ hasVoteFor voteId ip [] = false
  ∧ (byVoteID voteId docs ≠ [] ↔ ∃ d, In d docs ∧ v_voteID d = voteId)
  ∧ (byIP ip docs ≠ [] ↔ ∃ d, In d docs ∧ v_IP d = ip).
Proof.
  assert (Hv : byVoteID voteId docs ≠ [] ↔ ∃ d, In d docs ∧ v_voteID d = voteId).
  { unfold byVoteID. rewrite filter_nonempty.
    split; intros (d & Hd & He); exists d; split; try done;
      by apply String.eqb_eq. }
  assert (Hi : byIP ip docs ≠ [] ↔ ∃ d, In d docs ∧ v_IP d = ip).
  { unfold byIP. rewrite filter_nonempty.
    split; intros (d & Hd & He); exists d; split; try done;
      by apply String.eqb_eq. }
  split; [|split; [done|split; done]].
  unfold hasVoteFor. rewrite orb_true_iff, !negb_true_iff, !bool_decide_eq_false.
  rewrite Hv, Hi. split.
  - intros [(d & ? & ?)|(d & ? & ?)]; exists d; auto.
  - intros (d & ? & [?|?]); [left|right]; exists d; auto.
Qed.

(** X6: the gate blocks on evidence only.  [hasVoted] turns from false to
    true in three ways: the initial check resolved and the collection holds a
    vote of the queried identity or address; the address check resolved and
    the collection holds a vote from that address; or the visitor's own
    [addDoc] resolved and the vote is now stored, the other documents as
    they were. *)
Theorem X6_blocked_only_on_evidence (w : world) (e : event) :
  hasVoted w = false → hasVoted (step w e) = true →
  ∃ i payload slot t,
    e = Settle i (Resolved payload slot) ∧ pending w !! i = Some t
    ∧ match t with
      | AwaitCheckVoteStatus voteId ip =>
          hasVoteFor voteId ip (ledger w) = true
      | AwaitCheckVoteByIP ip => byIP ip (ledger w) ≠ []
      | AwaitAddDoc doc =>
          ledger (step w e)
          = take slot (ledger w) ++ doc :: drop slot (ledger w)
      | _ => False
      end.
Proof.
  intros Hf Ht.
  destruct e as [|value| |o u n|i r|slot doc];
    [exfalso; gate_cases..| |exfalso; gate_cases].
  simpl in *. destruct (pending w !! i) as [t|] eqn:Hp; [|congruence].
  destruct r as [payload slot|msg]; [|exfalso; destruct t; gate_cases].
  exists i, payload, slot, t. split; [done|]. split; [done|].
  destruct t as [voteId ip| |ip|fs|doc].
  - unfold resume, checkVoteStatus_resume, hasVoteFor in *. simpl in *.
    destruct (byVoteID voteId (ledger w)) as [|x xs] eqn:Hx;
      destruct (byIP ip (ledger w)) as [|y ys] eqn:Hy; simpl in *;
      rewrite ?Hx, ?Hy; try done; congruence.
  - gate_cases.
  - unfold resume, checkVoteByIP_resume in *. simpl in *.
    destruct (byIP ip (ledger w)) as [|y ys] eqn:Hy; simpl in *;
      [congruence|rewrite ?Hy; done].
  - destruct fs; gate_cases.
  - done.
Qed.

(** X6 for a visitor blocked by the address check. *)
Lemma X6_blocked_only_on_evidence_witness :
  let theirs := mkVote (JStr "A") "203.0.113.7" "id-other" "2024-12-01T10:00:00.000Z" in
  let w := run (mount "3b241101-e2bb-4255-8caf-4136c566a962" (initial None [theirs]))
             [Settle 0 (Resolved "" 0); Settle 1 (Resolved "203.0.113.7" 0)] in
  ∃ i payload slot t,
    Settle 1 (Resolved "" 0) = Settle i (Resolved payload slot)
    ∧ pending w !! i = Some t
    ∧ match t with
      | AwaitCheckVoteStatus voteId ip => hasVoteFor voteId ip (ledger w) = true
      | AwaitCheckVoteByIP ip => byIP ip (ledger w) ≠ []
      | AwaitAddDoc doc =>
          ledger (step w (Settle 1 (Resolved "" 0)))
          = take slot (ledger w) ++ doc :: drop slot (ledger w)
      | _ => False
      end.
Proof.
  intros theirs w.
  exact (X6_blocked_only_on_evidence w (Settle 1 (Resolved "" 0)) eq_refl eq_refl).
Defined.

(** X7: a rejected promise changes nothing the gate decides on.  Whatever
    call was suspended, its rejection leaves [hasVoted], the verification,
    the challenge, the address, the persisted token, the ledger and the
    displayed tally as they were; only the rejection of the initial check
    clears the loading state.  The only toasts are the error toast of a
    rejected [addDoc] and the success toast of a submission whose refresh of
    the tally was rejected. *)
Theorem X7_rejections_change_no_decision
    (w : world) (i : nat) (t : task) (message : string) :
  pending w !! i = Some t →
  let w' := step w (Settle i (Rejected message)) in
  hasVoted w' = hasVoted w
  ∧ captchaVerified w' = captchaVerified w
  ∧ showCaptcha w' = showCaptcha w
  ∧ userIP w' = userIP w
  ∧ localStorage w' = localStorage w
  ∧ ledger w' = ledger w
  ∧ voteStats w' = voteStats w
  ∧ loading w'
    = match t with AwaitCheckVoteStatus _ _ => false | _ => loading w end
  ∧ toasts w'
    = toasts w
      ++ match t with
         | AwaitAddDoc _ => [Toast SubmitError]
         | AwaitFetchVoteStats true => [Toast VoteRecorded]
         | _ => []
         end.
Proof.
  intros Hp w'. unfold w'. rewrite (settle_lookup w i t _ Hp).
  unfold toasts.
  destruct t as [voteId ip| |ip|[|]|doc]; simpl;
    rewrite ?List.filter_app, ?app_nil_r; simpl; rewrite ?app_nil_r;
    repeat split; done.
Qed.

(** X7 for an address lookup that fails. *)
Lemma X7_rejections_change_no_decision_witness :
  let w := mount "3b241101-e2bb-4255-8caf-4136c566a962" (initial None []) in
  let w' := step w (Settle 2 (Rejected "timeout")) in
  hasVoted w' = false ∧ userIP w' = "" ∧ loading w' = true.
Proof.
  intros w w'.
  destruct (X7_rejections_change_no_decision w 2 AwaitFetchIP "timeout" eq_refl)
    as (H1 & _ & _ & H2 & _ & _ & _ & H3 & _).
  split; [exact H1|split; [exact H2|exact H3]].
Defined.

(** X8: [generateVoteId] returns what the storage holds afterwards, in all
    its branches, and touches nothing but the stored token.  A stored empty
    string counts as no token and is replaced by the fresh UUID; the result
    is never empty when the UUID is not. *)
Theorem X8_generateVoteId_returns_the_stored_token (uuid : string) (w : world) :
  let voteId := fst (generateVoteId uuid w) in
  let w' := snd (generateVoteId uuid w) in
  localStorage w' = Some voteId
  ∧ w' = (if bool_decide (localStorage w = Some voteId) then w
          else setItem uuid w)
  ∧ (localStorage w = Some "" → voteId = uuid)
  ∧ (uuid ≠ "" → voteId ≠ "").
Proof.
  unfold generateVoteId.
  destruct (localStorage w) as [s|] eqn:Hs; [destruct (str_truthy s) eqn:Ht|];
    simpl; rewrite ?Hs.
  - apply str_truthy_nonempty in Ht. case_bool_decide; [|done].
    repeat split; congruence.
  - assert (s = "") as ->.
    { destruct (decide (s = "")) as [|Hne]; [done|].
      apply str_truthy_nonempty in Hne. congruence. }
    split; [done|]. split; [|done].
    case_bool_decide as Hd; [|done].
    injection Hd as <-. destruct w; simpl in *. by rewrite Hs.
  - by repeat split.
Qed.

(** X8 for a browser that stores the empty string. *)
Lemma X8_generateVoteId_returns_the_stored_token_witness :
  fst (generateVoteId "3b241101-e2bb-4255-8caf-4136c566a962"
         (initial (Some "") []))
  = "3b241101-e2bb-4255-8caf-4136c566a962".
Proof.
  exact (proj1 (proj2 (proj2 (X8_generateVoteId_returns_the_stored_token
                         "3b241101-e2bb-4255-8caf-4136c566a962"
                         (initial (Some "") [])))) eq_refl).
Defined.


(** X4 on a collection with one vote, asked for another identity at the same
    address. *)
Lemma X4_hasVoteFor_is_an_or_of_two_matches_witness :
  hasVoteFor "id-mine" "203.0.113.7"
    [mkVote (JStr "A") "203.0.113.7" "id-other" "2024-12-01T10:00:00.000Z"]
  = true.
Proof.
  apply (proj1 (X4_hasVoteFor_is_an_or_of_two_matches "id-mine" "203.0.113.7"
                  [mkVote (JStr "A") "203.0.113.7" "id-other"
                     "2024-12-01T10:00:00.000Z"])).
  exists (mkVote (JStr "A") "203.0.113.7" "id-other" "2024-12-01T10:00:00.000Z").
  split; [by left|by right].
Defined.






Lemma voteStats_step (w : world) (e : event) :
  voteStats (step w e) = voteStats w
  ∨ (computeTally (ledger w) = Some (voteStats (step w e))
     ∧ ledger (step w e) = ledger w).
Proof.
  destruct e as [|value| |o u n|i r|slot doc]; try solve [left; gate_cases].
  simpl. destruct (pending w !! i) as [t|] eqn:Hp; [|by left].
  destruct t as [voteId ip| |ip|fs|doc]; try solve [left; gate_cases].
  destruct r as [p slot|msg]; [|left; by destruct fs].
  unfold resume, fetchVoteStats_resume. simpl.
  destruct (computeTally (ledger w)) as [stats|] eqn:E;
    [right|left]; by destruct fs.
Qed.

Lemma step_tally_of_earlier (w : world) (e : event) :
  tally_of_earlier w → tally_of_earlier (step w e).
Proof.
  intros (earlier & Hl & Hs).
  destruct (voteStats_step w e) as [E|[E El]].
  - exists earlier. rewrite E. split; [|done].
    etrans; [exact Hl|apply step_ledger_sublist].
  - exists (ledger w). by rewrite El.
Qed.

Lemma count_for_sublist (k : string) (l1 l2 : list Vote) :
  sublist l1 l2 → count_for k l1 ≤ count_for k l2.
Proof.
  induction 1 as [|x l1 l2 _ IH|x l1 l2 _ IH];
    rewrite ?count_for_cons; [done| |]; destruct (hits k x); lia.
Qed.

(** X12: the displayed tally is never ahead of the ledger.  At any moment
    [voteStats] is the tally of an earlier state of the collection, that is
    of some of the documents it now holds (the initial [{A: 0, B: 0, C: 0}]
    is the tally of none), so for each of A, B and C the displayed count is
    a number between 0 and the number of votes the collection now holds for
    it. *)
Theorem X12_displayed_tally_is_never_ahead (w : world) (es : list event) :
  tally_of_earlier w →
  tally_of_earlier (run w es)
  ∧ ∀ k, recognized k = true →
         ∃ c, voteStats (run w es) !! k = Some (Num c)
              ∧ 0 ≤ c ≤ count_for k (ledger (run w es)).
Proof.
  intros H.
  assert (Hr : tally_of_earlier (run w es)).
  { revert w H. induction es as [|e es IH]; intros w H; [done|].
    apply (IH (step w e)). by apply step_tally_of_earlier. }
  split; [done|]. intros k Hk.
  destruct Hr as (earlier & Hl & Hs).
  exists (count_for k earlier).
  rewrite (computeTally_own_key earlier _ k Hs (recognized_own k Hk)).
  rewrite stats0_lookup, Hk. simpl. split; [done|].
  pose proof (count_for_nonneg k earlier).
  pose proof (count_for_sublist k _ _ Hl). lia.
Qed.

(** X12 from the first render on. *)
Lemma X12_displayed_tally_is_never_ahead_witness :
  let mine := mkVote (JStr "A") "203.0.113.7" "id-1" "2024-12-01T10:00:05.000Z" in
  tally_of_earlier
    (run (mount "3b241101-e2bb-4255-8caf-4136c566a962" (initial None [mine]))
       [Settle 1 (Resolved "" 0); ForeignWrite 0 mine]).
Proof.
  intros mine.
  apply (X12_displayed_tally_is_never_ahead
           (mount "3b241101-e2bb-4255-8caf-4136c566a962" (initial None [mine]))
           [Settle 1 (Resolved "" 0); ForeignWrite 0 mine]).
  exists []. split; [apply sublist_nil_l|reflexivity].
Defined.

Lemma offered_step (w : world) (e : event) :
  offered w e = true →
  Forall (fun t => quiet t = true) (pending w) →
  Forall (fun t => quiet t = true) (pending (step w e))
  ∧ toasts (step w e) = toasts w
  ∧ ledger (step w e) = after_writes [e] (ledger w).
Proof.
  intros Ho Hq. destruct e as [|value| |o u n|i r|slot doc].
  - simpl in Ho. unfold render in Ho.
    destruct (loading w); [done|]. destruct (hasVoted w) eqn:Hv; [done|].
    simpl. unfold handleVoteClick. by rewrite Hv.
  - simpl. unfold onCaptchaChange. by repeat case_match.
  - done.
  - done.
  - simpl.
    destruct (pending w !! i) as [t|] eqn:Hp; [|done].
    pose proof (Forall_lookup_1 _ _ _ _ Hq Hp) as Ht.
    assert (Hd : Forall (fun t => quiet t = true) (delete i (pending w)))
      by (by apply Forall_delete).
    destruct t as [voteId ip| |ip|[|]|doc0]; try done;
      destruct r as [p slot|msg];
      unfold resume, checkVoteStatus_resume, fetchIP_resume, checkVoteByIP,
        checkVoteByIP_resume, fetchVoteStats_resume;
      repeat case_match; unfold toasts; simpl;
      rewrite ?List.filter_app; simpl; rewrite ?app_nil_r;
      repeat split; try done;
      try (apply Forall_app; split; [done|by repeat constructor]).
  - done.
Qed.

(** X13: the rendered page never records a vote.  The buttons call
    [handleVoteClick], the challenge calls [onCaptchaChange], and no element
    calls [submitVote].  So in every run of events that the page offers,
    starting with no submission under way, no [addDoc] is ever issued, no
    toast is ever shown, and the collection changes only by what other
    clients write. *)
Theorem X13_the_page_never_submits (w : world) (es : list event) :
  offered_all w es = true →
  Forall (fun t => quiet t = true) (pending w) →
  appends_in_flight (run w es) = 0%nat
  ∧ toasts (run w es) = toasts w
  ∧ ledger (run w es) = after_writes es (ledger w).
Proof.
  revert w. induction es as [|e es IH]; intros w Ho Hq.
  - simpl. split; [|done].
    unfold appends_in_flight. induction Hq as [|t ts Ht _ IHq]; [done|].
    by destruct t.
  - simpl in Ho. apply andb_true_iff in Ho as [Ho1 Ho2].
    destruct (offered_step w e Ho1 Hq) as (Hq' & Ht' & Hl').
    destruct (IH (step w e) Ho2 Hq') as (Ha & Ht & Hl).
    change (run w (e :: es)) with (run (step w e) es).
    split; [done|]. split; [by rewrite Ht|]. by rewrite Hl, Hl'.
Qed.

(** X13 for a visitor who clicks, solves the challenge and clicks again. *)
Lemma X13_the_page_never_submits_witness :
  let w := mount "3b241101-e2bb-4255-8caf-4136c566a962" (initial None []) in
  let es := [Settle 0 (Resolved "" 0); Click; CaptchaChange (Some "03AFcWeA5");
             Click; CloseCaptcha; Settle 0 (Resolved "" 0)] in
  appends_in_flight (run w es) = 0%nat
  ∧ toasts (run w es) = []
  ∧ ledger (run w es) = [].
Proof.
  intros w es.
  apply (X13_the_page_never_submits w es).
  - reflexivity.
  - repeat constructor.
Defined.



Lemma no_empty_address_check_step (w : world) (e : event) :
  Forall (fun t => t ≠ AwaitCheckVoteByIP "") (pending w) →
  Forall (fun t => t ≠ AwaitCheckVoteByIP "") (pending (step w e)).
Proof.
  intros Hq. destruct e as [|value| |o u n|i r|slot doc];
    try solve [gate_cases].
  - gate_cases; (apply Forall_app; split; [done|by repeat constructor]).
  - simpl. destruct (pending w !! i) as [t|] eqn:Hp; [|done].
    assert (Hd : Forall (fun t => t ≠ AwaitCheckVoteByIP "") (delete i (pending w)))
      by (by apply Forall_delete).
    destruct t as [voteId ip| |ip|fs|doc0]; destruct r as [p slot|msg];
      try solve [gate_cases];
      try solve [gate_cases;
                 (apply Forall_app; split; [done|by repeat constructor])].
    unfold resume, fetchIP_resume, checkVoteByIP, suspend. simpl.
    destruct (str_truthy p) eqn:Ht; simpl; [|done].
    apply Forall_app. split; [done|]. constructor; [|constructor].
    intros [= ->]. done.
Qed.

(** X15: the address of the visitor.  [userIP] is written only when the
    address lookup resolves, with what the lookup answered.  An empty answer
    starts no address check and blocks nobody, and no run of events ever
    makes [checkVoteByIP] query for the empty address. *)
Theorem X15_address_lookup_and_check (w : world) :
  (∀ e, userIP (step w e) = userIP w
        ∨ ∃ i ip slot, e = Settle i (Resolved ip slot)
                  ∧ pending w !! i = Some AwaitFetchIP
                  ∧ userIP (step w e) = ip)
  ∧ (∀ i slot, pending w !! i = Some AwaitFetchIP →
          let w' := step w (Settle i (Resolved "" slot)) in
          pending w' = delete i (pending w)
          ∧ hasVoted w' = hasVoted w ∧ localStorage w' = localStorage w)
  ∧ (∀ es, Forall (fun t => t ≠ AwaitCheckVoteByIP "") (pending w) →
           Forall (fun t => t ≠ AwaitCheckVoteByIP "") (pending (run w es))).
Proof.
  split; [|split].
  - intros e. destruct e as [|value| |o u n|i r|slot doc];
      try solve [left; gate_cases].
    simpl. destruct (pending w !! i) as [t|] eqn:Hp; [|by left].
    destruct t as [voteId ip| |ip|fs|doc]; try solve [left; gate_cases].
    destruct r as [ip slot|msg]; [|by left].
    right. exists i, ip, slot. split; [done|]. split; [done|]. gate_cases.
  - intros i slot Hp w'. unfold w'. by rewrite (settle_lookup w i _ _ Hp).
  - intros es. revert w. induction es as [|e es IH]; intros w Hq; [done|].
    apply (IH (step w e)). by apply no_empty_address_check_step.
Qed.

(** X15 for a lookup that answers without an address. *)
Lemma X15_address_lookup_and_check_witness :
  let w := mount "3b241101-e2bb-4255-8caf-4136c566a962" (initial None []) in
  pending (step w (Settle 2 (Resolved "" 0)))
  = [AwaitCheckVoteStatus "3b241101-e2bb-4255-8caf-4136c566a962" "";
     AwaitFetchVoteStats false]
  ∧ Forall (fun t => t ≠ AwaitCheckVoteByIP "")
      (pending (run w [Settle 2 (Resolved "" 0)])).
Proof.
  intros w.
  destruct (X15_address_lookup_and_check w) as (_ & H2 & H3).
  split.
  - exact (proj1 (H2 2%nat 0%nat eq_refl)).
  - apply (H3 [Settle 2 (Resolved "" 0)]). repeat constructor; discriminate.
Defined.

(** X16: every click on a poll button opens the challenge, also for a
    visitor who has passed it already; passing it closes the modal, marks
    the visitor verified and starts nothing: the visitor is on the same page
    as before the click, with the same calls suspended. *)
Theorem X16_click_then_challenge (w : world) (token : string) :
  hasVoted w = false → token ≠ "" →
  let w' := run w [Click; CaptchaChange (Some token)] in
  showCaptcha (step w Click) = true
  ∧ captchaVerified (step w Click) = captchaVerified w
  ∧ w' = setShowCaptcha false (setCaptchaVerified true w)
  ∧ pending w' = pending w
  ∧ fst (render w') = fst (render w).
Proof.
  intros Hv Ht w'. unfold w', run. simpl.
  unfold handleVoteClick, onCaptchaChange, render.
  rewrite Hv, (proj2 (str_truthy_nonempty token) Ht). simpl.
  rewrite Hv. repeat split. by destruct (loading w).
Qed.

(** X16 for a visitor who is verified and clicks again. *)
Lemma X16_click_then_challenge_witness :
  let w := run (initial None []) [Click; CaptchaChange (Some "03AFcWeA5")] in
  showCaptcha (step w Click) = true ∧ captchaVerified w = true.
Proof.
  intros w.
  destruct (X16_click_then_challenge w "03AFcWeA5" eq_refl ltac:(discriminate))
    as (H1 & _).
  split; [exact H1|reflexivity].
Defined.
